(** * ColmaGo record store: a model of [database.py] and its properties

    The store ([class Database]) keeps each table either in a remote
    backend (Supabase) or, as a fallback, in one CSV file per table under
    [data_backup/].  This development embeds the Python code as Rocq
    functions and proves what the four public operations do.  It also
    covers the check of the credentials in [config.py] and the two
    computations of [Main.py]: the colour of a hovered button and the
    place of the window.

    Modelling choices.
    - A Python value is one of [None], a [str], an [int], or a list of
      [str] (the only list the code ever meets is the one [csv.DictReader]
      stores under its rest key).  Floats are left out.
    - A [dict] is an association list in insertion order with unique keys,
      as Python dicts are; keys are [str] or [None] (the rest key).
    - A character is a code point below 256.
    - A CSV file is the list of rows the [csv] module parses it into; the
      quoting layer of the [csv] module, which round-trips every row, is
      not modelled.  A file whose reading raises is [Malformed].
    - The file system is a finite map from paths to files, threaded through
      the operations by a state-and-exception monad.  Two paths are one
      file when they are one string, which is so for the paths of table
      names without a separator on a case-sensitive POSIX file system
      without links.
    - What the remote backend answers to a call is an input of the
      operation ([reply]).  An exception is one that derives from
      [Exception].
    - [str] and [int] convert integers of any size, as an interpreter
      without the limit of 4300 digits does; the properties of module [Io]
      that depend on it keep larger integers out by hypothesis
      ([small_int], [small_ints], [small_ids]).
    - The store is modelled twice.  First ([select], [insert], ...) on a
      console that prints every message, a disk that takes every write and
      files within the field limit of the [csv] reader.  Then, in module
      [Io], with the console, the disk and the limit as they are: [print]
      may raise, [open] may raise, a write may break, and the reader raises
      on a field above its limit. *)

From Stdlib Require Import ZArith List Ascii String Bool.
From stdpp Require Import base decidable option list strings pretty gmap.
Import ListNotations.

Local Open Scope string_scope.
Local Open Scope Z_scope.
Local Open Scope list_scope.

(** ** Python values *)

Inductive value : Type :=
| VNone
| VStr (s : string)
| VInt (n : Z)
| VList (l : list string).

#[global] Instance value_eq_dec : EqDecision value.
Proof. solve_decision. Defined.

(** [a == b] on the values above. *)
Definition py_eq (a b : value) : bool := bool_decide (a = b).

(** A dict key: [Some s] is the string [s], [None] is Python's [None]. *)
Definition key : Type := option string.

Definition dict : Type := list (key * value).

Fixpoint dict_get (d : dict) (k : key) : option value :=
  match d with
  | [] => None
  | (k', v) :: d' => if bool_decide (k' = k) then Some v else dict_get d' k
  end.

(** [d[k] = v]: overwrite in place, or append a new key. *)
Fixpoint dict_set (d : dict) (k : key) (v : value) : dict :=
  match d with
  | [] => [(k, v)]
  | (k', v') :: d' =>
      if bool_decide (k' = k) then (k', v) :: d' else (k', v') :: dict_set d' k v
  end.

Definition dict_keys (d : dict) : list key := List.map fst d.

(** [k in d] *)
Definition dict_has (d : dict) (k : key) : bool := bool_decide (k ∈ dict_keys d).

(** [d.get(k, default)] *)
Definition py_get (d : dict) (k : key) (default : value) : value :=
  match dict_get d k with Some v => v | None => default end.

(** [d.update(other)] *)
Definition dict_update (d other : dict) : dict :=
  fold_left (fun acc kv => dict_set acc (fst kv) (snd kv)) other d.

(** [dict(zip(ks, vs))] *)
Definition dict_of_zip (ks : list key) (vs : list value) : dict :=
  fold_left (fun acc kv => dict_set acc (fst kv) (snd kv)) (combine ks vs) [].


(** ** [str], [repr] and [int] *)

Definition hex_digit (n : nat) : ascii :=
  ascii_of_nat (if (n <? 10)%nat then 48 + n else 87 + n).

Definition is_printable (n : nat) : bool :=
  ((32 <=? n) && (n <? 127))%nat || ((161 <=? n) && negb (n =? 173))%nat.

(** One character of [repr(s)], [q] being the quote chosen for [s]. *)
Definition repr_char (q c : ascii) : string :=
  let n := nat_of_ascii c in
  if bool_decide (c = q) || bool_decide (c = "\"%char)
  then String "\" (String c "")
  else if (n =? 9)%nat then "\t"
  else if (n =? 10)%nat then "\n"
  else if (n =? 13)%nat then "\r"
  else if is_printable n then String c ""
  else String "\" (String "x" (String (hex_digit (n / 16)) (String (hex_digit (n mod 16)) ""))).

Definition has_char (c : ascii) (s : string) : bool :=
  existsb (fun x => bool_decide (x = c)) (list_ascii_of_string s).

Definition dquote : ascii := ascii_of_nat 34.
Definition squote : ascii := ascii_of_nat 39.

(** [repr(s)] for a [str]. *)
Definition repr_str (s : string) : string :=
  let q := if has_char squote s && negb (has_char dquote s) then dquote else squote in
  String q (String.concat "" (List.map (repr_char q) (list_ascii_of_string s)) ++ String q "")%string.

(** [str(v)] *)
Definition py_str (v : value) : string :=
  match v with
  | VNone => "None"
  | VStr s => s
  | VInt n => pretty n
  | VList l => ("[" ++ String.concat ", " (List.map repr_str l) ++ "]")%string
  end.

Definition is_space (c : ascii) : bool :=
  let n := nat_of_ascii c in
  (((9 <=? n) && (n <=? 13)) || (n =? 32) || (n =? 133) || (n =? 160))%nat.

Definition digit_of (c : ascii) : option Z :=
  let n := nat_of_ascii c in
  if ((48 <=? n) && (n <=? 57))%nat then Some (Z.of_nat n - 48) else None.

(** Digits with single underscores between them. *)
Fixpoint parse_digits (acc : Z) (after_digit : bool) (l : list ascii) : option Z :=
  match l with
  | [] => if after_digit then Some acc else None
  | c :: l' =>
      match digit_of c with
      | Some d => parse_digits (10 * acc + d) true l'
      | None =>
          if bool_decide (c = "_"%char) && after_digit
          then parse_digits acc false l' else None
      end
  end.

Fixpoint lstrip (l : list ascii) : list ascii :=
  match l with
  | c :: l' => if is_space c then lstrip l' else l
  | [] => []
  end.

Definition strip (l : list ascii) : list ascii := rev (lstrip (rev (lstrip l))).

(** [int(s)] for a [str]; [None] stands for [ValueError].  (The limit on
    the number of digits of recent interpreters is not modelled.) *)
Definition int_of_string (s : string) : option Z :=
  match strip (list_ascii_of_string s) with
  | c :: l =>
      if bool_decide (c = "-"%char) then Z.opp <$> parse_digits 0 false l
      else if bool_decide (c = "+"%char) then parse_digits 0 false l
      else parse_digits 0 false (c :: l)
  | [] => None
  end.

(** ** Exceptions *)

Inductive exn : Type :=
| ValueError
| TypeError
| OSError
| CsvError
| BackendError.

Inductive outcome (A : Type) : Type :=
| Returns (a : A)
| Raises (e : exn).
Arguments Returns {A} a.
Arguments Raises {A} e.

(** [int(v)] *)
Definition py_int (v : value) : outcome Z :=
  match v with
  | VInt n => Returns n
  | VStr s => match int_of_string s with Some n => Returns n | None => Raises ValueError end
  | VNone | VList _ => Raises TypeError
  end.

(** A list comprehension whose element expression may raise. *)
Fixpoint map_outcome {A B : Type} (f : A → outcome B) (l : list A) : outcome (list B) :=
  match l with
  | [] => Returns []
  | a :: l' =>
      match f a with
      | Raises e => Raises e
      | Returns b =>
          match map_outcome f l' with
          | Raises e => Raises e
          | Returns bs => Returns (b :: bs)
          end
      end
  end.

(** [max(l, default=d)] *)
Definition py_max (l : list Z) (d : Z) : Z :=
  match l with
  | [] => d
  | x :: l' => fold_left Z.max l' x
  end.

(** ** The file system and the monad of the store's internals *)

Inductive file : Type :=
| Malformed
| Csv (rows : list (list string)).

Definition M (A : Type) : Type := gmap string file → outcome A * gmap string file.

Definition ret {A : Type} (a : A) : M A := fun fs => (Returns a, fs).

Definition bind {A B : Type} (m : M A) (f : A → M B) : M B :=
  fun fs =>
    match m fs with
    | (Returns a, fs') => f a fs'
    | (Raises e, fs') => (Raises e, fs')
    end.

Definition lift {A : Type} (o : outcome A) : M A := fun fs => (o, fs).

(** [try: body / except Exception: print(...); return fallback], the
    [print] of the handler going through ([Io.try_except] has it). *)
Definition try_except {A : Type} (body : M A) (fallback : A) : M A :=
  fun fs =>
    match body fs with
    | (Returns a, fs') => (Returns a, fs')
    | (Raises _, fs') => (Returns fallback, fs')
    end.

Notation "'let*' x ':=' m 'in' f" := (bind m (fun x => f))
  (at level 10, x name, m at level 100, f at level 200).
Notation "'exec*' m 'in' f" := (bind m (fun _ => f))
  (at level 10, m at level 100, f at level 200).

(** ** [csv.DictReader] and [csv.DictWriter] on parsed rows *)

(** The dict [DictReader] builds from one row: fields beyond the header go
    to the rest key [None] as a list, missing fields are [None]. *)
Definition reader_row (fieldnames : list string) (row : list string) : dict :=
  let d := dict_of_zip (List.map Some fieldnames) (List.map VStr row) in
  let lf := length fieldnames in
  let lr := length row in
  if (lf <? lr)%nat then dict_set d None (VList (drop lf row))
  else fold_left (fun acc k => dict_set acc (Some k) VNone) (drop lr fieldnames) d.

Definition is_blank (row : list string) : bool :=
  match row with [] => true | _ => false end.

(** [list(csv.DictReader(f))]: the first row is the header, blank rows are
    skipped. *)
Definition DictReader (rows : list (list string)) : list dict :=
  match rows with
  | [] => []
  | fieldnames :: rest =>
      List.map (reader_row fieldnames) (List.filter (fun r => negb (is_blank r)) rest)
  end.

(** What the writer puts in a cell: nothing for [None], [str(v)] otherwise. *)
Definition to_field (v : value) : string :=
  match v with
  | VNone => ""
  | _ => py_str v
  end.

Definition key_field (k : key) : string :=
  match k with Some s => s | None => "" end.

(** The cells of a dict, one per field name, [''] where it has none. *)
Definition row_of (fieldnames : list key) (rowdict : dict) : list string :=
  List.map (fun k => to_field (py_get rowdict k (VStr ""))) fieldnames.

(** [not (rowdict.keys() - fieldnames)] *)
Definition fits (fieldnames : list key) (rowdict : dict) : bool :=
  forallb (fun k => bool_decide (k ∈ fieldnames)) (dict_keys rowdict).

(** [DictWriter._dict_to_list] with the default [extrasaction='raise'] and
    [restval='']. *)
Definition dict_to_list (fieldnames : list key) (rowdict : dict) : outcome (list string) :=
  if fits fieldnames rowdict then Returns (row_of fieldnames rowdict) else Raises ValueError.

(** [writer.writerows(datos)]: rows reach the file one by one, so the rows
    before an offending dict are written. *)
Fixpoint writerows (fieldnames : list key) (datos : list dict) : outcome unit * list (list string) :=
  match datos with
  | [] => (Returns tt, [])
  | d :: datos' =>
      match dict_to_list fieldnames d with
      | Raises e => (Raises e, [])
      | Returns row =>
          let '(r, rows) := writerows fieldnames datos' in (r, row :: rows)
      end
  end.

(** ** The store *)

Record Database : Type := {
  supabase : bool;      (* a client object is held *)
  connected : bool;
  csv_mode : bool;
  csv_dir : string
}.

(** [os.path.join(a, b)] on POSIX. *)
Definition path_join (a b : string) : string :=
  match b with
  | String "/" _ => b
  | _ =>
      match rev (list_ascii_of_string a) with
      | [] => b
      | c :: _ => (if bool_decide (c = "/"%char) then a ++ b else a ++ "/" ++ b)%string
      end
  end.

Definition _get_csv_path (self : Database) (tabla : string) : string :=
  path_join (csv_dir self) (tabla ++ ".csv")%string.

(** Every field is within the limit of the reader ([Io._read_csv] has the
    limit). *)
Definition _read_csv (self : Database) (tabla : string) : M (list dict) :=
  fun fs =>
    match fs !! _get_csv_path self tabla with
    | None => (Returns [], fs)
    | Some Malformed => (Raises CsvError, fs)
    | Some (Csv rows) => (Returns (DictReader rows), fs)
    end.

(** The file opens and takes what is written ([Io._write_csv] has the
    faults of the disk). *)
Definition _write_csv (self : Database) (tabla : string) (datos : list dict) : M unit :=
  match datos with
  | [] => ret tt
  | d0 :: _ =>
      fun fs =>
        let fieldnames := dict_keys d0 in
        let '(r, rows) := writerows fieldnames datos in
        (r, <[_get_csv_path self tabla := Csv (List.map key_field fieldnames :: rows)]> fs)
  end.

(** What the backend answers to the one call an operation makes in remote
    mode: the rows of the response, or an exception. *)
Definition reply : Type := outcome (list dict).

(** A dict used as a condition is true when it is not empty. *)
Definition truthy (filtros : option dict) : bool :=
  match filtros with
  | Some (_ :: _) => true
  | _ => false
  end.

Definition matches (filtros : dict) (d : dict) : bool :=
  forallb (fun kv => py_eq (py_get d (fst kv) VNone) (snd kv)) filtros.

Definition select_body (self : Database) (remote : reply) (tabla : string)
    (filtros : option dict) : M (list dict) :=
  if csv_mode self then
    let* datos := _read_csv self tabla in
    if truthy filtros
    then ret (List.filter (matches (default [] filtros)) datos)
    else ret datos
  else lift remote.

Definition select (self : Database) (remote : reply) (tabla : string)
    (filtros : option dict) : M (list dict) :=
  try_except (select_body self remote tabla filtros) [].

Definition id_key : key := Some "id".

(** The id given to a record that has none. *)
Definition next_id (registros : list dict) : outcome value :=
  match map_outcome (fun r => py_int (py_get r id_key (VInt 0))) registros with
  | Raises e => Raises e
  | Returns ids => Returns (VStr (py_str (VInt (py_max ids 0 + 1))))
  end.

(** [insert] also changes the dict it is given; the body returns it. *)
Definition insert_body (self : Database) (remote : reply) (tabla : string)
    (datos : dict) : M (bool * dict) :=
  if csv_mode self then
    let* registros := _read_csv self tabla in
    let* datos' := (if negb (dict_has datos id_key)
                    then let* v := lift (next_id registros) in ret (dict_set datos id_key v)
                    else ret datos) in
    exec* _write_csv self tabla (registros ++ [datos']) in
    ret (true, datos')
  else
    exec* lift remote in ret (true, datos).

Definition insert (self : Database) (remote : reply) (tabla : string)
    (datos : dict) : M bool :=
  try_except (let* r := insert_body self remote tabla datos in ret (fst r)) false.

(** The loop of [update]: merge into the first record with the id, stop. *)
Fixpoint update_first (ident : string) (datos : dict) (registros : list dict) : list dict :=
  match registros with
  | [] => []
  | r :: rs =>
      if py_eq (py_get r id_key VNone) (VStr ident)
      then dict_update r datos :: rs
      else r :: update_first ident datos rs
  end.

Definition update_body (self : Database) (remote : reply) (tabla : string)
    (id_registro : value) (datos : dict) : M bool :=
  if csv_mode self then
    let* registros := _read_csv self tabla in
    exec* _write_csv self tabla (update_first (py_str id_registro) datos registros) in
    ret true
  else
    exec* lift remote in ret true.

Definition update (self : Database) (remote : reply) (tabla : string)
    (id_registro : value) (datos : dict) : M bool :=
  try_except (update_body self remote tabla id_registro datos) false.

Definition delete_body (self : Database) (remote : reply) (tabla : string)
    (id_registro : value) : M bool :=
  if csv_mode self then
    let* registros := _read_csv self tabla in
    exec* _write_csv self tabla
      (List.filter (fun r => negb (py_eq (py_get r id_key VNone) (VStr (py_str id_registro))))
         registros) in
    ret true
  else
    exec* lift remote in ret true.

Definition delete (self : Database) (remote : reply) (tabla : string)
    (id_registro : value) : M bool :=
  try_except (delete_body self remote tabla id_registro) false.

Definition get_connection_status (self : Database) : string :=
  if csv_mode self then "CSV Local"
  else if connected self then "Supabase"
  else "Desconectado".

(** ** Construction *)

(** What the constructor meets: the two credentials of [config], whether
    [data_backup] exists, and what [os.makedirs], [create_client] and the
    probing query would do if called. *)
Record environment : Type := {
  SUPABASE_URL : option string;
  SUPABASE_KEY : option string;
  dir_exists : bool;
  makedirs : outcome unit;
  create_client : outcome unit;
  probe : reply
}.

(** Truth value of [os.getenv]'s result: set and not empty. *)
Definition is_set (o : option string) : bool :=
  match o with
  | Some (String _ _) => true
  | _ => false
  end.

Definition fallback (self : Database) : Database :=
  {| supabase := supabase self; connected := false; csv_mode := true;
     csv_dir := csv_dir self |}.

(** [_connect] on a console that prints its messages ([Io._connect] has
    the [print]s). *)
Definition _connect (env : environment) (self : Database) : Database :=
  if is_set (SUPABASE_URL env) && is_set (SUPABASE_KEY env) then
    match create_client env with
    | Raises _ => fallback self
    | Returns _ =>
        let self' := {| supabase := true; connected := connected self;
                        csv_mode := csv_mode self; csv_dir := csv_dir self |} in
        match probe env with
        | Raises _ => fallback self'
        | Returns _ =>
            {| supabase := true; connected := true; csv_mode := false;
               csv_dir := csv_dir self' |}
        end
    end
  else fallback self.

(** [Database()]: the directory is created outside any [try]. *)
Definition __init__ (env : environment) : outcome Database :=
  let self := {| supabase := false; connected := false; csv_mode := false;
                 csv_dir := "data_backup" |} in
  match (if dir_exists env then Returns tt else makedirs env) with
  | Raises e => Raises e
  | Returns _ => Returns (_connect env self)
  end.

(** ** Sequences of calls *)

Inductive call : Type :=
| CallSelect (tabla : string) (filtros : option dict)
| CallInsert (tabla : string) (datos : dict)
| CallUpdate (tabla : string) (id_registro : value) (datos : dict)
| CallDelete (tabla : string) (id_registro : value)
| CallStatus.

(** One call on a store; no method assigns to a field of [self]. *)
Definition step (st : Database * gmap string file) (c : call * reply)
    : Database * gmap string file :=
  let '(self, fs) := st in
  match c with
  | (CallSelect tabla filtros, remote) => (self, snd (select self remote tabla filtros fs))
  | (CallInsert tabla datos, remote) => (self, snd (insert self remote tabla datos fs))
  | (CallUpdate tabla i datos, remote) => (self, snd (update self remote tabla i datos fs))
  | (CallDelete tabla i, remote) => (self, snd (delete self remote tabla i fs))
  | (CallStatus, _) => (self, fs)
  end.

Definition run (calls : list (call * reply)) (st : Database * gmap string file)
    : Database * gmap string file :=
  fold_left step calls st.

(** ** Table states *)

(** The records a table holds. *)
Definition stored (self : Database) (tabla : string) (fs : gmap string file) : list dict :=
  match fs !! _get_csv_path self tabla with
  | Some (Csv rows) => DictReader rows
  | _ => []
  end.

Definition rectangular (rows : list (list string)) : bool :=
  match rows with
  | [] => true
  | fieldnames :: rest => forallb (fun r => (length r =? length fieldnames)%nat) rest
  end.

(** A table state: no file yet, or a file in which every row has one field
    per column.  Every file the store writes is of this kind. *)
Definition table_ok (self : Database) (tabla : string) (fs : gmap string file) : bool :=
  match fs !! _get_csv_path self tabla with
  | None => true
  | Some Malformed => false
  | Some (Csv rows) => rectangular rows
  end.

(** The record as the file gives it back: every value in its written form. *)
Definition stringify (d : dict) : dict :=
  List.map (fun kv => (fst kv, VStr (to_field (snd kv)))) d.

(** A record with all its values strings, as a well-formed file holds it. *)
Definition plain (d : dict) : Prop := Forall (fun kv => ∃ s, snd kv = VStr s) d.

(** The record read back after [d] was written under the columns [K]. *)
Definition normalise (K : list key) (d : dict) : dict :=
  combine K (List.map (fun k => VStr (to_field (py_get d k (VStr "")))) K).

(** Records that all have the columns [K], in that order. *)
Definition uniform (K : list key) (recs : list dict) : Prop :=
  Forall (fun d => dict_keys d = K ∧ plain d) recs.

(** The file system once [recs] are written to the table under the
    columns [K]. *)
Definition written (self : Database) (tabla : string) (K : list key) (recs : list dict)
    (fs : gmap string file) : gmap string file :=
  <[_get_csv_path self tabla := Csv (List.map key_field K :: List.map (row_of K) recs)]> fs.

(** The ['id'] of each stored record, in order ([None] where a record
    has no such field). *)
Definition ids (self : Database) (tabla : string) (fs : gmap string file)
    : list (option value) :=
  List.map (fun r => dict_get r id_key) (stored self tabla fs).


Definition has_id (ident : string) (r : dict) : bool :=
  py_eq (py_get r id_key VNone) (VStr ident).

(** ** Concrete stores and tables used in the examples *)

(** The store the constructor builds when no credentials are configured. *)
Definition csv_store : Database :=
  {| supabase := false; connected := false; csv_mode := true; csv_dir := "data_backup" |}.

(** In local mode the backend is never asked; any reply will do. *)
Definition unused : reply := Raises BackendError.

Definition one_client : gmap string file :=
  {[ "data_backup/clientes.csv" := Csv [["id"; "name"]; ["1"; "Ana"]] ]}.

Definition two_clients : gmap string file :=
  {[ "data_backup/clientes.csv" := Csv [["id"; "name"]; ["1"; "Ana"]; ["2"; "Bo"]] ]}.

Definition ana : dict := [(Some "id", VStr "1"); (Some "name", VStr "Ana")].

Definition bo : dict := [(Some "id", VStr "2"); (Some "name", VStr "Bo")].

(** No credentials, and a working directory in which [data_backup] is
    missing and cannot be created. *)
Definition read_only_env : environment :=
  {| SUPABASE_URL := None; SUPABASE_KEY := None; dir_exists := false;
     makedirs := Raises OSError; create_client := Raises BackendError;
     probe := Raises BackendError |}.

(** No credentials, [data_backup] already there. *)
Definition offline_env : environment :=
  {| SUPABASE_URL := None; SUPABASE_KEY := None; dir_exists := true;
     makedirs := Returns tt; create_client := Raises BackendError;
     probe := Raises BackendError |}.

(** ** Further definitions for the properties of [insert] *)

(** The record [insert] appends: the given one, with the next id when it
    has none. *)
Definition with_id (registros : list dict) (datos : dict) : outcome dict :=
  if dict_has datos id_key then Returns datos
  else match next_id registros with
       | Returns v => Returns (dict_set datos id_key v)
       | Raises e => Raises e
       end.

(** The columns of a table that holds a record: the keys of its first
    record. *)
Definition columns (self : Database) (tabla : string) (fs : gmap string file) : list key :=
  match stored self tabla fs with
  | r0 :: _ => dict_keys r0
  | [] => []
  end.

(** The table a call works on. *)
Definition call_table (c : call) : option string :=
  match c with
  | CallSelect tabla _ | CallInsert tabla _ | CallUpdate tabla _ _ | CallDelete tabla _ =>
      Some tabla
  | CallStatus => None
  end.


(** ** [config.py]: the check of the credentials *)


(** ** [Main.py]: the colour of a hovered button, the place of the window *)

(** [s.lstrip(c)] for a single character [c]. *)
Fixpoint lstrip_char (c : ascii) (l : list ascii) : list ascii :=
  match l with
  | x :: l' => if bool_decide (x = c) then lstrip_char c l' else l
  | [] => []
  end.

(** [s[i:j]] for [0 <= i <= j]. *)
Definition slice (i j : nat) (l : list ascii) : list ascii := take (j - i) (drop i l).

Definition hex_of (c : ascii) : option Z :=
  let n := nat_of_ascii c in
  if ((48 <=? n) && (n <=? 57))%nat then Some (Z.of_nat n - 48)
  else if ((97 <=? n) && (n <=? 102))%nat then Some (Z.of_nat n - 87)
  else if ((65 <=? n) && (n <=? 70))%nat then Some (Z.of_nat n - 55)
  else None.

(** Hexadecimal digits with single underscores between them. *)
Fixpoint parse_hex_digits (acc : Z) (after_digit : bool) (l : list ascii) : option Z :=
  match l with
  | [] => if after_digit then Some acc else None
  | c :: l' =>
      match hex_of c with
      | Some d => parse_hex_digits (16 * acc + d) true l'
      | None =>
          if bool_decide (c = "_"%char) && after_digit
          then parse_hex_digits acc false l' else None
      end
  end.

(** The digits of [int(s, 16)] after the sign: a prefix [0x] or [0X] is
    skipped, and one underscore after it. *)
Definition skip_0x (body : list ascii) : list ascii :=
  match body with
  | z :: x :: more =>
      if bool_decide (z = "0"%char) && (bool_decide (x = "x"%char) || bool_decide (x = "X"%char))
      then match more with
           | u :: more' => if bool_decide (u = "_"%char) then more' else more
           | [] => more
           end
      else body
  | _ => body
  end.

(** [int(s, 16)]; [None] stands for [ValueError]. *)
Definition int_of_string_16 (s : list ascii) : option Z :=
  match strip s with
  | c :: l =>
      if bool_decide (c = "-"%char) then Z.opp <$> parse_hex_digits 0 false (skip_0x l)
      else if bool_decide (c = "+"%char) then parse_hex_digits 0 false (skip_0x l)
      else parse_hex_digits 0 false (skip_0x (c :: l))
  | [] => None
  end.

Fixpoint hex_go (fuel : nat) (n : N) (acc : string) : string :=
  match fuel with
  | O => acc
  | S fuel' =>
      if (n =? 0)%N then acc
      else hex_go fuel' (n / 16)%N (String (hex_digit (N.to_nat (n mod 16)%N)) acc)
  end.

(** [format(n, 'x')] for [n >= 0]. *)
Definition hex_of_N (n : N) : string :=
  if (n =? 0)%N then "0" else hex_go (N.size_nat n) n "".

(** [f'{n:02x}']: lower-case hexadecimal, padded with a zero to two
    characters, the sign included. *)
Definition format_02x (n : Z) : string :=
  match n with
  | Zneg p => String "-" (hex_of_N (Npos p))
  | _ =>
      let s := hex_of_N (Z.to_N n) in
      if (String.length s <? 2)%nat then String "0" s else s
  end.

Definition _oscurecer_color (color : string) : outcome string :=
  let color := lstrip_char "#" (list_ascii_of_string color) in
  let channel (i : nat) : outcome Z :=
    match int_of_string_16 (slice i (i + 2) color) with
    | Some n => Returns n
    | None => Raises ValueError
    end in
  match channel 0%nat with
  | Raises e => Raises e
  | Returns r =>
      match channel 2%nat with
      | Raises e => Raises e
      | Returns g =>
          match channel 4%nat with
          | Raises e => Raises e
          | Returns b =>
              Returns (String "#" (format_02x (Z.max 0 (r - 30))
                                   ++ format_02x (Z.max 0 (g - 30))
                                   ++ format_02x (Z.max 0 (b - 30))))%string
          end
      end
  end.

(** [f'{width}x{height}+{x}+{y}'] *)
Definition geometry (width height x y : Z) : string :=
  (pretty width ++ "x" ++ pretty height ++ "+" ++ pretty x ++ "+" ++ pretty y)%string.

(** [_centrar_ventana], given what Tk reports: the size of the screen and
    of the window.  The result is the argument of [root.geometry]. *)
Definition _centrar_ventana (screen_width screen_height width height : Z) : string :=
  let x := screen_width / 2 - width / 2 in
  let y := screen_height / 2 - height / 2 in
  geometry width height x y.

(** All the characters, and the checks run over them in the proofs about
    [_oscurecer_color]. *)
Definition all_ascii : list ascii := List.map ascii_of_nat (seq 0 256).

Definition channel_bounded (l : list ascii) : bool :=
  match int_of_string_16 l with
  | Some v => (v <=? 255)
  | None => true
  end.

Definition short_slices_bounded : bool :=
  channel_bounded []
  && forallb (fun a => channel_bounded [a]
                       && forallb (fun b => channel_bounded [a; b]) all_ascii) all_ascii.

(** [f'{n:02x}'] is two hexadecimal digits that read back as [n]. *)
Definition two_digits (n : Z) : bool :=
  match list_ascii_of_string (format_02x n) with
  | [a; b] =>
      match hex_of a, hex_of b with
      | Some va, Some vb => (16 * va + vb =? n)
      | _, _ => false
      end
  | _ => false
  end.

Definition bytes_two_digits : bool :=
  forallb (fun k => two_digits (Z.of_nat k)) (seq 0 256).

(** What a hexadecimal digit is not. *)
Definition plain_hex (c : ascii) : bool :=
  match hex_of c with
  | Some _ =>
      negb (is_space c) && negb (bool_decide (c = "#"%char))
      && negb (bool_decide (c = "-"%char)) && negb (bool_decide (c = "+"%char))
      && negb (bool_decide (c = "x"%char)) && negb (bool_decide (c = "X"%char))
  | None => true
  end.

(** ** The console, the disk and the limit of the [csv] reader *)

(** The definitions above are the store on a console that prints every
    message, a disk that takes every write, and files whose fields the
    [csv] reader accepts.  Module [Io] below is the store without
    these three assumptions; [Io.select] and the like agree with [select]
    and the like wherever the assumptions hold (lemmas [io_*_agrees]). *)

(** The seven messages of [database.py], each with an emoji in it; those of
    the operations also carry the name of the table.  (The text of the
    exception they end with is left out.) *)
Inductive message : Type :=
| MsgConnected                     (* line 39 *)
| MsgNoConnection                  (* line 43 *)
| MsgUsingCsv                      (* line 44 *)
| MsgSelectError (tabla : string)  (* line 99 *)
| MsgInsertError (tabla : string)  (* line 127 *)
| MsgUpdateError (tabla : string)  (* line 155 *)
| MsgDeleteError (tabla : string). (* line 179 *)

(** What becomes of writing a file: it opens and takes all that is written
    ([Written]); [open(path, 'w')] raises, as it does when the directory of
    the path is missing or the file may not be written ([NotOpened]); or it
    opens and a later write, flush or close raises, as on a full disk,
    leaving on the disk some part of what was written, whatever the device
    took ([Broken]). *)
Inductive write_result : Type :=
| Written
| NotOpened (e : exn)
| Broken (e : exn) (remains : file).

(** What the process around the store does when asked: [print] of a message
    raises when [sys.stdout] cannot encode it ([UnicodeEncodeError], a
    [ValueError]) or is closed; [disk] tells what becomes of writing the
    file at a path. *)
Record world : Type := {
  print : message → outcome unit;
  disk : string → write_result
}.

(** [csv.field_size_limit()]: the reader raises [csv.Error] on a field with
    more characters than this. *)
Definition field_limit : N := 131072.

Definition short (s : string) : bool := (N.of_nat (String.length s) <=? field_limit)%N.

Definition within_limit (rows : list (list string)) : bool := forallb (forallb short) rows.

Module Io.

(** [try: body / except Exception as e: print(msg); return fallback]: the
    [print] runs in the handler, outside the [try]. *)
Definition try_except {A : Type} (w : world) (msg : message) (body : M A) (fallback : A)
    : M A :=
  fun fs =>
    match body fs with
    | (Returns a, fs') => (Returns a, fs')
    | (Raises _, fs') =>
        match print w msg with
        | Returns _ => (Returns fallback, fs')
        | Raises e => (Raises e, fs')
        end
    end.

(** [list(csv.DictReader(f))] reads every row, the header too, so one field
    above the limit anywhere makes the whole read raise. *)
Definition _read_csv (self : Database) (tabla : string) : M (list dict) :=
  fun fs =>
    match fs !! _get_csv_path self tabla with
    | None => (Returns [], fs)
    | Some Malformed => (Raises CsvError, fs)
    | Some (Csv rows) =>
        if within_limit rows then (Returns (DictReader rows), fs) else (Raises CsvError, fs)
    end.

(** When [open] raises nothing has touched the file; when a write breaks
    the file is what the device took.  The writer has no limit on the size
    of a field. *)
Definition _write_csv (w : world) (self : Database) (tabla : string) (datos : list dict)
    : M unit :=
  match datos with
  | [] => ret tt
  | d0 :: _ =>
      fun fs =>
        match disk w (_get_csv_path self tabla) with
        | NotOpened e => (Raises e, fs)
        | Broken e remains => (Raises e, <[_get_csv_path self tabla := remains]> fs)
        | Written =>
            let fieldnames := dict_keys d0 in
            let '(r, rows) := writerows fieldnames datos in
            (r, <[_get_csv_path self tabla := Csv (List.map key_field fieldnames :: rows)]> fs)
        end
  end.

Definition select_body (self : Database) (remote : reply) (tabla : string)
    (filtros : option dict) : M (list dict) :=
  if csv_mode self then
    let* datos := _read_csv self tabla in
    if truthy filtros
    then ret (List.filter (matches (default [] filtros)) datos)
    else ret datos
  else lift remote.

Definition select (w : world) (self : Database) (remote : reply) (tabla : string)
    (filtros : option dict) : M (list dict) :=
  try_except w (MsgSelectError tabla) (select_body self remote tabla filtros) [].

Definition insert_body (w : world) (self : Database) (remote : reply) (tabla : string)
    (datos : dict) : M (bool * dict) :=
  if csv_mode self then
    let* registros := _read_csv self tabla in
    let* datos' := (if negb (dict_has datos id_key)
                    then let* v := lift (next_id registros) in ret (dict_set datos id_key v)
                    else ret datos) in
    exec* _write_csv w self tabla (registros ++ [datos']) in
    ret (true, datos')
  else
    exec* lift remote in ret (true, datos).

Definition insert (w : world) (self : Database) (remote : reply) (tabla : string)
    (datos : dict) : M bool :=
  try_except w (MsgInsertError tabla)
    (let* r := insert_body w self remote tabla datos in ret (fst r)) false.

Definition update_body (w : world) (self : Database) (remote : reply) (tabla : string)
    (id_registro : value) (datos : dict) : M bool :=
  if csv_mode self then
    let* registros := _read_csv self tabla in
    exec* _write_csv w self tabla (update_first (py_str id_registro) datos registros) in
    ret true
  else
    exec* lift remote in ret true.

Definition update (w : world) (self : Database) (remote : reply) (tabla : string)
    (id_registro : value) (datos : dict) : M bool :=
  try_except w (MsgUpdateError tabla) (update_body w self remote tabla id_registro datos) false.

Definition delete_body (w : world) (self : Database) (remote : reply) (tabla : string)
    (id_registro : value) : M bool :=
  if csv_mode self then
    let* registros := _read_csv self tabla in
    exec* _write_csv w self tabla
      (List.filter (fun r => negb (py_eq (py_get r id_key VNone) (VStr (py_str id_registro))))
         registros) in
    ret true
  else
    exec* lift remote in ret true.

Definition delete (w : world) (self : Database) (remote : reply) (tabla : string)
    (id_registro : value) : M bool :=
  try_except w (MsgDeleteError tabla) (delete_body w self remote tabla id_registro) false.

(** The handler of [_connect]: its two [print]s come before the flags are
    set, and what they raise leaves [_connect]. *)
Definition handler (w : world) (self : Database) : outcome Database :=
  match print w MsgNoConnection with
  | Raises e => Raises e
  | Returns _ =>
      match print w MsgUsingCsv with
      | Raises e => Raises e
      | Returns _ => Returns (fallback self)
      end
  end.

(** The [print] of line 39 is inside the [try], after the flags are set:
    when it raises, the handler runs. *)
Definition _connect (w : world) (env : environment) (self : Database) : outcome Database :=
  if is_set (SUPABASE_URL env) && is_set (SUPABASE_KEY env) then
    match create_client env with
    | Raises _ => handler w self
    | Returns _ =>
        let self' := {| supabase := true; connected := connected self;
                        csv_mode := csv_mode self; csv_dir := csv_dir self |} in
        match probe env with
        | Raises _ => handler w self'
        | Returns _ =>
            let self'' := {| supabase := true; connected := true; csv_mode := false;
                             csv_dir := csv_dir self' |} in
            match print w MsgConnected with
            | Raises _ => handler w self''
            | Returns _ => Returns self''
            end
        end
    end
  else handler w self.

Definition __init__ (w : world) (env : environment) : outcome Database :=
  let self := {| supabase := false; connected := false; csv_mode := false;
                 csv_dir := "data_backup" |} in
  match (if dir_exists env then Returns tt else makedirs env) with
  | Raises e => Raises e
  | Returns _ => _connect w env self
  end.

(** One call on a store, in the world it is made in. *)
Definition step (st : Database * gmap string file) (c : call * reply * world)
    : Database * gmap string file :=
  let '(self, fs) := st in
  match c with
  | (CallSelect tabla filtros, remote, w) => (self, snd (select w self remote tabla filtros fs))
  | (CallInsert tabla datos, remote, w) => (self, snd (insert w self remote tabla datos fs))
  | (CallUpdate tabla i datos, remote, w) => (self, snd (update w self remote tabla i datos fs))
  | (CallDelete tabla i, remote, w) => (self, snd (delete w self remote tabla i fs))
  | (CallStatus, _, _) => (self, fs)
  end.

Definition run (calls : list (call * reply * world)) (st : Database * gmap string file)
    : Database * gmap string file :=
  fold_left step calls st.

End Io.

(** A table file that [Io._read_csv] reads: none, or a well-formed one with
    every field within the limit. *)
Definition readable (self : Database) (tabla : string) (fs : gmap string file) : bool :=
  match fs !! _get_csv_path self tabla with
  | None => true
  | Some Malformed => false
  | Some (Csv rows) => within_limit rows
  end.

(** A record whose field names and written values are within the limit. *)
Definition short_record (d : dict) : bool :=
  forallb (fun kv => short (key_field (fst kv)) && short (to_field (snd kv))) d.

(** What [str] turns into text without more ado: recent interpreters raise
    [ValueError] on an integer of more than 4300 digits
    ([sys.get_int_max_str_digits()]).  The properties below leave such
    integers out. *)
Definition small_int (v : value) : bool :=
  match v with
  | VInt n => Z.abs n <? 10 ^ 4300
  | _ => true
  end.

Definition small_ints (d : dict) : bool := forallb (fun kv => small_int (snd kv)) d.

(** Likewise [int] raises on a string of more than 4300 digits: stored ids
    shorter than that are within its reach, and so is their maximum plus
    one. *)
Definition small_ids (recs : list dict) : bool :=
  forallb (fun r => match dict_get r id_key with
                    | Some (VStr s) => (String.length s <? 4300)%nat
                    | _ => true
                    end) recs.

(** A console that prints and a disk that takes every write. *)
Definition quiet : world :=
  {| print := fun _ => Returns tt; disk := fun _ => Written |}.

(** A console that cannot encode the emoji of the messages. *)
Definition ascii_console : world :=
  {| print := fun _ => Raises ValueError; disk := fun _ => Written |}.

(** A disk on which no file opens for writing. *)
Definition read_only_disk : world :=
  {| print := fun _ => Returns tt; disk := fun _ => NotOpened OSError |}.

(** A disk that is full: of all that is written, the header and half of
    the first row get through. *)
Definition full_disk : world :=
  {| print := fun _ => Returns tt;
     disk := fun _ => Broken OSError (Csv [["id"; "name"]; ["1"]]) |}.

(** A string one character longer than the reader accepts. *)
Definition long_field : string :=
  string_of_list_ascii (repeat "a"%char (N.to_nat (field_limit + 1))).

(** A table name without a path separator names a file of [data_backup]
    itself. *)
Definition flat (tabla : string) : bool := negb (has_char "/" tabla).

(** ** Records and filters as the specification words them *)

(** The cell of column [j] in a row; a row shorter than the header has
    [None] there. *)
Definition cell (row : list string) (j : nat) : value :=
  match row !! j with
  | Some s => VStr s
  | None => VNone
  end.

(** [d] is the record of the row [row] under the header [h]: its field
    [name] is the cell of the column headed [name] (the last one, when
    several columns have that name), it has no other named field, and what
    the row has beyond the header is kept as a list under the key [None]. *)
Definition record_of (h row : list string) (d : dict) : Prop :=
  NoDup (dict_keys d)
  ∧ (∀ name v, (Some name, v) ∈ d
               ↔ ∃ j, h !! j = Some name
                      ∧ (∀ j', (j < j')%nat → h !! j' ≠ Some name)
                      ∧ v = cell row j)
  ∧ (∀ v, (None, v) ∈ d
          ↔ (length h < length row)%nat ∧ v = VList (drop (length h) row)).

(** The records of a table file: none without a file or without a header,
    else one for each non-blank row after the header, in order. *)
Definition records_of (f : option file) (recs : list dict) : Prop :=
  match f with
  | None | Some (Csv []) => recs = []
  | Some (Csv (h :: rest)) => Forall2 (record_of h) (filter (fun row => row ≠ []) rest) recs
  | Some Malformed => False
  end.

(** Every listed field equals the given value: the record has each field
    of the filter, with the value given there. *)
Definition listed (filtros d : dict) : Prop :=
  Forall (fun kv => kv ∈ d) filtros.

(** The same, a field that the record lacks counting as [None]. *)
Definition listed_or_absent (filtros d : dict) : Prop :=
  Forall (fun kv => kv ∈ d ∨ (snd kv = VNone ∧ fst kv ∉ dict_keys d)) filtros.

#[global] Instance listed_dec filtros d : Decision (listed filtros d).
Proof. unfold listed. apply Forall_dec. intros kv. apply _. Defined.

#[global] Instance listed_or_absent_dec filtros d : Decision (listed_or_absent filtros d).
Proof. unfold listed_or_absent. apply Forall_dec. intros kv. apply _. Defined.

(** A table file with a ragged row: the second record has a field beyond
    the header. *)
Definition ragged_clients : gmap string file :=
  {[ "data_backup/clientes.csv" := Csv [["id"; "name"]; ["1"; "Ana"]; ["2"; "Bo"; "x"]] ]}.

(** A table file as the store writes it, with a field above the limit of
    the reader. *)
Definition long_clients : gmap string file :=
  {[ "data_backup/clientes.csv" := Csv [["id"; "name"]; ["1"; long_field]; ["2"; "Bo"]] ]}.

(** A table file that cannot be read. *)
Definition bad_clients : gmap string file :=
  {[ "data_backup/clientes.csv" := Malformed ]}.

Definition remote_store : Database :=
  {| supabase := true; connected := true; csv_mode := false; csv_dir := "data_backup" |}.

(** ** Dictionaries *)

Section Dicts.
Implicit Types (d : dict) (k : key) (v : value).

Lemma dict_get_set d k v k' :
  dict_get (dict_set d k v) k' = if bool_decide (k = k') then Some v else dict_get d k'.
Proof.
  induction d as [|[k0 v0] d IH]; simpl.
  - reflexivity.
  - destruct (bool_decide_reflect (k0 = k)) as [->|Hne]; simpl.
    + destruct (bool_decide (k = k')); reflexivity.
    + rewrite IH. destruct (bool_decide_reflect (k0 = k')) as [->|Hne'].
      * rewrite bool_decide_eq_false_2 by congruence. reflexivity.
      * reflexivity.
Qed.

Lemma dict_get_None d k : dict_get d k = None ↔ k ∉ dict_keys d.
Proof.
  induction d as [|[k0 v0] d IH]; simpl.
  - split; [intros _; apply not_elem_of_nil | reflexivity].
  - rewrite not_elem_of_cons. destruct (bool_decide_reflect (k0 = k)) as [->|Hne].
    + split; [discriminate | intros [? _]; congruence].
    + rewrite IH. split; [intros ?; split; [congruence | assumption] | intros [_ ?]; assumption].
Qed.

Lemma dict_get_Some_in d k v : dict_get d k = Some v → k ∈ dict_keys d.
Proof.
  intros H. destruct (decide (k ∈ dict_keys d)) as [|Hn]; [assumption|].
  apply dict_get_None in Hn. congruence.
Qed.

Lemma dict_set_new d k v : k ∉ dict_keys d → dict_set d k v = d ++ [(k, v)].
Proof.
  induction d as [|[k0 v0] d IH]; simpl; intros Hk.
  - reflexivity.
  - apply not_elem_of_cons in Hk as [Hne Hk].
    rewrite bool_decide_eq_false_2 by congruence. rewrite IH by assumption. reflexivity.
Qed.

Lemma dict_keys_set_old d k v : k ∈ dict_keys d → dict_keys (dict_set d k v) = dict_keys d.
Proof.
  induction d as [|[k0 v0] d IH]; simpl; intros Hk.
  - apply elem_of_nil in Hk as [].
  - destruct (bool_decide_reflect (k0 = k)) as [->|Hne]; simpl; [reflexivity|].
    apply elem_of_cons in Hk as [->|Hk]; [congruence|]. rewrite IH by assumption. reflexivity.
Qed.

Lemma dict_keys_set_elem d k v k' :
  k' ∈ dict_keys (dict_set d k v) ↔ k' = k ∨ k' ∈ dict_keys d.
Proof.
  destruct (decide (k ∈ dict_keys d)) as [Hin|Hn].
  - rewrite dict_keys_set_old by assumption. split; [auto | intros [->|]; assumption].
  - rewrite dict_set_new by assumption. unfold dict_keys. rewrite map_app. simpl.
    rewrite elem_of_app, list_elem_of_singleton. tauto.
Qed.

Lemma dict_set_NoDup d k v : NoDup (dict_keys d) → NoDup (dict_keys (dict_set d k v)).
Proof.
  intros Hd. destruct (decide (k ∈ dict_keys d)) as [Hin|Hn].
  - rewrite dict_keys_set_old; assumption.
  - rewrite dict_set_new by assumption. unfold dict_keys. rewrite map_app. simpl.
    apply NoDup_app. split; [assumption|]. split.
    + intros x Hx Hx'. apply list_elem_of_singleton in Hx'. subst. contradiction.
    + apply NoDup_singleton.
Qed.

Lemma dict_get_app d1 d2 k :
  dict_get (d1 ++ d2) k
  = match dict_get d1 k with Some v => Some v | None => dict_get d2 k end.
Proof.
  induction d1 as [|[k1 v1] d1 IH]; simpl; [reflexivity|].
  destruct (bool_decide (k1 = k)); [reflexivity | exact IH].
Qed.

Lemma dict_update_get d other k :
  dict_get (dict_update d other) k
  = match dict_get (rev other) k with Some v => Some v | None => dict_get d k end.
Proof.
  unfold dict_update. revert d. induction other as [|[k0 v0] o IH]; intros d; simpl.
  - reflexivity.
  - rewrite IH, dict_get_set, dict_get_app. simpl.
    destruct (dict_get (rev o) k); [reflexivity|].
    destruct (bool_decide (k0 = k)); reflexivity.
Qed.

Lemma dict_get_rev_None d k : dict_get (rev d) k = None ↔ k ∉ dict_keys d.
Proof.
  rewrite dict_get_None. unfold dict_keys. rewrite map_rev.
  rewrite !list_elem_of_In, <- in_rev. reflexivity.
Qed.

Lemma dict_get_rev d k : NoDup (dict_keys d) → dict_get (rev d) k = dict_get d k.
Proof.
  induction d as [|[k0 v0] d IH]; simpl; intros Hnd; [reflexivity|].
  apply NoDup_cons in Hnd as [Hk0 Hnd].
  rewrite dict_get_app, IH by assumption. simpl.
  destruct (bool_decide_reflect (k0 = k)) as [->|Hne].
  - apply dict_get_None in Hk0. rewrite Hk0. reflexivity.
  - destruct (dict_get d k); reflexivity.
Qed.

Lemma dict_update_keys d other k :
  k ∈ dict_keys (dict_update d other) ↔ k ∈ dict_keys d ∨ k ∈ dict_keys other.
Proof.
  unfold dict_update. revert d. induction other as [|[k0 v0] o IH]; intros d; simpl.
  - rewrite elem_of_nil. tauto.
  - rewrite IH, dict_keys_set_elem, elem_of_cons. tauto.
Qed.

Lemma dict_update_keys_sub d other :
  (∀ k, k ∈ dict_keys other → k ∈ dict_keys d) →
  dict_keys (dict_update d other) = dict_keys d.
Proof.
  unfold dict_update. revert d. induction other as [|[k0 v0] o IH]; intros d Hsub; simpl.
  - reflexivity.
  - rewrite IH.
    + apply dict_keys_set_old. apply Hsub. simpl. left.
    + intros k Hk. rewrite dict_keys_set_old by (apply Hsub; simpl; left).
      apply Hsub. simpl. right. assumption.
Qed.

Lemma py_get_keys d default :
  NoDup (dict_keys d) → List.map (fun k => py_get d k default) (dict_keys d) = List.map snd d.
Proof.
  unfold py_get. induction d as [|[k0 v0] d IH]; simpl; intros Hnd; [reflexivity|].
  apply NoDup_cons in Hnd as [Hk0 Hnd].
  rewrite bool_decide_eq_true_2 by reflexivity. f_equal.
  rewrite <- IH by assumption. apply map_ext_in. intros k Hk.
  rewrite bool_decide_eq_false_2; [reflexivity|].
  intros ->. apply Hk0. apply list_elem_of_In. exact Hk.
Qed.
End Dicts.

(** ** Reading back what was written *)

Section Csv.
Implicit Types (d : dict) (k : key) (K : list key) (recs : list dict).

Lemma dict_of_zip_fresh (ks : list key) (vs : list value) (acc : dict) :
  NoDup ks → (∀ k, k ∈ ks → k ∉ dict_keys acc) →
  fold_left (fun a kv => dict_set a (fst kv) (snd kv)) (combine ks vs) acc
  = acc ++ combine ks vs.
Proof.
  revert vs acc. induction ks as [|k ks IH]; intros vs acc Hnd Hfresh; simpl.
  - rewrite app_nil_r. reflexivity.
  - destruct vs as [|v vs]; simpl; [rewrite app_nil_r; reflexivity|].
    apply NoDup_cons in Hnd as [Hk Hnd].
    rewrite dict_set_new by (apply Hfresh; left).
    rewrite IH; [rewrite <- app_assoc; reflexivity | assumption |].
    intros k' Hk'. unfold dict_keys. rewrite map_app. simpl.
    rewrite elem_of_app, list_elem_of_singleton. intros [Hin | ->].
    + eapply Hfresh; [right; eassumption | exact Hin].
    + contradiction.
Qed.

Lemma dict_of_zip_NoDup (ks : list key) (vs : list value) :
  NoDup ks → dict_of_zip ks vs = combine ks vs.
Proof.
  intros Hnd. unfold dict_of_zip. rewrite dict_of_zip_fresh; [reflexivity | assumption |].
  intros k _. apply not_elem_of_nil.
Qed.


(** On a row as long as the header, the reader only zips. *)
Lemma reader_row_full (fieldnames row : list string) :
  length row = length fieldnames →
  reader_row fieldnames row = dict_of_zip (List.map Some fieldnames) (List.map VStr row).
Proof.
  intros Hlen. unfold reader_row. rewrite Hlen, Nat.ltb_irrefl.
  rewrite drop_all. reflexivity.
Qed.

Lemma map_Some_key_field K :
  Forall (fun k => is_Some k) K → List.map Some (List.map key_field K) = K.
Proof.
  induction 1 as [|k K [s ->] _ IH]; simpl; [reflexivity | rewrite IH; reflexivity].
Qed.

Lemma is_Some_NoDup_fields K :
  Forall (fun k => is_Some k) K → NoDup K → NoDup (List.map Some (List.map key_field K)).
Proof. intros HS. rewrite map_Some_key_field by assumption. auto. Qed.

(** A written row read back under the header it was written with. *)
Lemma reader_row_row_of K d :
  NoDup K → Forall (fun k => is_Some k) K →
  reader_row (List.map key_field K) (row_of K d) = normalise K d.
Proof.
  intros Hnd HS. rewrite reader_row_full by (unfold row_of; rewrite !length_map; reflexivity).
  rewrite map_Some_key_field by assumption.
  rewrite dict_of_zip_NoDup by assumption.
  unfold normalise, row_of. rewrite map_map. reflexivity.
Qed.

Lemma combine_fst_snd {A B C : Type} (f : A → C) (l : list (B * A)) :
  combine (List.map fst l) (List.map (fun kv => f (snd kv)) l)
  = List.map (fun kv => (fst kv, f (snd kv))) l.
Proof. induction l as [|[b a] l IH]; simpl; [reflexivity | rewrite IH; reflexivity]. Qed.

Lemma normalise_same_keys d :
  NoDup (dict_keys d) → normalise (dict_keys d) d = stringify d.
Proof.
  intros Hnd. unfold normalise, stringify.
  rewrite <- (map_map (fun k => py_get d k (VStr "")) (fun v => VStr (to_field v))).
  rewrite py_get_keys by assumption. rewrite map_map.
  apply (combine_fst_snd (fun v => VStr (to_field v))).
Qed.

Lemma stringify_plain d : plain d → stringify d = d.
Proof.
  unfold stringify. induction 1 as [|[k v] d [s Hs] _ IH]; simpl in *; [reflexivity|].
  subst v. rewrite IH. reflexivity.
Qed.

Lemma normalise_get K d k :
  NoDup K →
  dict_get (normalise K d) k
  = if bool_decide (k ∈ K) then Some (VStr (to_field (py_get d k (VStr "")))) else None.
Proof.
  unfold normalise. induction K as [|k0 K IH]; intros Hnd; simpl.
  - reflexivity.
  - apply NoDup_cons in Hnd as [Hk0 Hnd].
    destruct (bool_decide_reflect (k0 = k)) as [->|Hne].
    + rewrite bool_decide_eq_true_2 by left. reflexivity.
    + rewrite IH by assumption.
      destruct (bool_decide_reflect (k ∈ K)) as [Hin|Hn].
      * rewrite bool_decide_eq_true_2 by (right; assumption). reflexivity.
      * rewrite bool_decide_eq_false_2; [reflexivity|].
        intros [->|?]%elem_of_cons; congruence.
Qed.

Lemma fits_spec K d : fits K d = true ↔ ∀ k, k ∈ dict_keys d → k ∈ K.
Proof.
  unfold fits. rewrite forallb_forall. split.
  - intros H k Hk. apply list_elem_of_In in Hk. apply H in Hk.
    apply bool_decide_eq_true_1 in Hk. exact Hk.
  - intros H k Hk. apply bool_decide_eq_true_2, H, list_elem_of_In, Hk.
Qed.

Lemma writerows_fit K recs :
  Forall (fun d => fits K d = true) recs →
  writerows K recs = (Returns tt, List.map (row_of K) recs).
Proof.
  induction 1 as [|d recs Hd _ IH]; simpl; [reflexivity|].
  unfold dict_to_list. rewrite Hd, IH. reflexivity.
Qed.

Lemma row_of_not_blank K d : K ≠ [] → negb (is_blank (row_of K d)) = true.
Proof. destruct K; [congruence | reflexivity]. Qed.

Lemma filter_all {A : Type} (p : A → bool) (l : list A) :
  Forall (fun x => p x = true) l → List.filter p l = l.
Proof. induction 1 as [|x l Hx _ IH]; simpl; [reflexivity | rewrite Hx, IH; reflexivity]. Qed.

(** Reading the rows written for [recs] under the columns [K]. *)
Lemma DictReader_written K recs :
  NoDup K → Forall (fun k => is_Some k) K → K ≠ [] →
  DictReader (List.map key_field K :: List.map (row_of K) recs)
  = List.map (normalise K) recs.
Proof.
  intros Hnd HS Hne. unfold DictReader. rewrite filter_all.
  - rewrite map_map. apply map_ext. intros d. apply reader_row_row_of; assumption.
  - apply Forall_forall. intros row Hrow. apply list_elem_of_In, in_map_iff in Hrow as [d [<- _]].
    apply row_of_not_blank, Hne.
Qed.
End Csv.

(** ** Tables *)

Section Tables.
Variable self : Database.
Variable tabla : string.
Implicit Types (fs : gmap string file) (d : dict) (K : list key) (recs : list dict).

Lemma table_ok_readable fs :
  table_ok self tabla fs = true → fs !! _get_csv_path self tabla ≠ Some Malformed.
Proof. unfold table_ok. intros H Hm. rewrite Hm in H. discriminate. Qed.

Lemma read_stored fs :
  fs !! _get_csv_path self tabla ≠ Some Malformed →
  _read_csv self tabla fs = (Returns (stored self tabla fs), fs).
Proof.
  unfold _read_csv, stored. intros H.
  destruct (fs !! _get_csv_path self tabla) as [[|rows]|]; [congruence | reflexivity..].
Qed.

Lemma stored_insert rows fs :
  stored self tabla (<[_get_csv_path self tabla := Csv rows]> fs) = DictReader rows.
Proof. unfold stored. rewrite lookup_insert_eq. reflexivity. Qed.

Lemma dict_keys_set_congr d d' k v v' :
  dict_keys d = dict_keys d' → dict_keys (dict_set d k v) = dict_keys (dict_set d' k v').
Proof.
  intros Hk. destruct (decide (k ∈ dict_keys d)) as [Hin|Hn].
  - rewrite !dict_keys_set_old by (rewrite <- ?Hk; assumption). exact Hk.
  - rewrite !dict_set_new by (rewrite <- ?Hk; assumption).
    unfold dict_keys in *. rewrite !map_app, Hk. reflexivity.
Qed.

Lemma fold_set_keys_congr (ks : list key) (vs vs' : list value) (acc acc' : dict) :
  dict_keys acc = dict_keys acc' → length vs = length vs' →
  dict_keys (fold_left (fun a kv => dict_set a (fst kv) (snd kv)) (combine ks vs) acc)
  = dict_keys (fold_left (fun a kv => dict_set a (fst kv) (snd kv)) (combine ks vs') acc').
Proof.
  revert vs vs' acc acc'.
  induction ks as [|k ks IH]; intros vs vs' acc acc' Hacc Hlen; simpl; [assumption|].
  destruct vs as [|v vs], vs' as [|v' vs']; simpl in *; try discriminate; [assumption|].
  apply IH; [apply dict_keys_set_congr; assumption | congruence].
Qed.

Lemma dict_of_zip_keys_congr (ks : list key) (vs vs' : list value) :
  length vs = length vs' →
  dict_keys (dict_of_zip ks vs) = dict_keys (dict_of_zip ks vs').
Proof. intros Hlen. apply fold_set_keys_congr; [reflexivity | assumption]. Qed.

Lemma dict_of_zip_keys_NoDup (ks : list key) (vs : list value) :
  NoDup (dict_keys (dict_of_zip ks vs)).
Proof.
  unfold dict_of_zip. generalize (combine ks vs) as l. intros l.
  assert (Hnil : NoDup (dict_keys [])) by apply NoDup_nil_2.
  revert Hnil. generalize (@nil (key * value)) as acc.
  induction l as [|[k v] l IH]; intros acc Hacc; simpl; [assumption|].
  apply IH, dict_set_NoDup, Hacc.
Qed.

Lemma dict_of_zip_keys_sub (ks : list key) (vs : list value) k :
  k ∈ dict_keys (dict_of_zip ks vs) → k ∈ ks.
Proof.
  change (dict_of_zip ks vs) with (dict_update [] (combine ks vs)).
  rewrite dict_update_keys. intros [H|H]; [apply elem_of_nil in H as []|].
  unfold dict_keys in H. apply list_elem_of_In, in_map_iff in H as [[k' v] [<- Hin]].
  apply in_combine_l in Hin. apply list_elem_of_In. exact Hin.
Qed.

Lemma dict_set_plain d k s : plain d → plain (dict_set d k (VStr s)).
Proof.
  unfold plain. induction 1 as [|[k0 v0] d Hv Hd IH]; simpl.
  - constructor; [eexists; reflexivity | constructor].
  - destruct (bool_decide (k0 = k)); constructor; try assumption. eexists; reflexivity.
Qed.

Lemma dict_of_zip_plain (ks : list key) (row : list string) :
  plain (dict_of_zip ks (List.map VStr row)).
Proof.
  unfold dict_of_zip. assert (Hnil : plain []) by constructor.
  revert Hnil. generalize (@nil (key * value)) as acc. revert row.
  induction ks as [|k ks IH]; intros row acc Hacc; simpl; [assumption|].
  destruct row as [|s row]; simpl; [assumption|].
  apply IH, dict_set_plain, Hacc.
Qed.

Lemma dict_of_zip_keys_nonempty (k : key) (ks : list key) (v : value) (vs : list value) :
  dict_keys (dict_of_zip (k :: ks) (v :: vs)) ≠ [].
Proof.
  assert (Hk : k ∈ dict_keys (dict_of_zip (k :: ks) (v :: vs))).
  { change (dict_of_zip (k :: ks) (v :: vs)) with (dict_update [] (combine (k :: ks) (v :: vs))).
    rewrite dict_update_keys. right. simpl. left. }
  intros Hnil. rewrite Hnil in Hk. apply elem_of_nil in Hk as [].
Qed.

(** The records of a table state all have the columns of the header. *)
Lemma stored_uniform fs :
  table_ok self tabla fs = true →
  ∃ K, NoDup K ∧ Forall (fun k => is_Some k) K
       ∧ (stored self tabla fs ≠ [] → K ≠ [])
       ∧ uniform K (stored self tabla fs).
Proof.
  unfold table_ok, stored.
  assert (Hempty : ∃ K, NoDup K ∧ Forall (fun k : key => is_Some k) K
                        ∧ (@nil dict ≠ [] → K ≠ []) ∧ uniform K []).
  { exists []. split; [apply NoDup_nil_2|]. split; [constructor|].
    split; [congruence | constructor]. }
  destruct (fs !! _get_csv_path self tabla) as [[|[|h rest]]|]; intros Hok;
    [discriminate | exact Hempty | | exact Hempty].
  unfold rectangular in Hok. rewrite forallb_forall in Hok.
  exists (dict_keys (dict_of_zip (List.map Some h) (List.map VStr h))).
  split; [apply dict_of_zip_keys_NoDup|]. split.
  { apply Forall_forall. intros k Hk. apply dict_of_zip_keys_sub in Hk.
    apply list_elem_of_In, in_map_iff in Hk as [s [<- _]]. eexists; reflexivity. }
  split.
  { destruct h as [|c h]; [|intros _; apply dict_of_zip_keys_nonempty].
    intros Hne. exfalso. apply Hne. simpl.
    assert (Hf : List.filter (fun r => negb (is_blank r)) rest = []).
    { clear Hne. induction rest as [|r rest IH]; [reflexivity|]. simpl.
      assert (Hr : (length r =? 0)%nat = true) by (apply Hok; left; reflexivity).
      apply Nat.eqb_eq in Hr. destruct r; [|discriminate]. simpl.
      apply IH. intros x Hx. apply Hok. right. exact Hx. }
    rewrite Hf. reflexivity. }
  unfold uniform. simpl. apply Forall_forall. intros d Hd.
  apply list_elem_of_In, in_map_iff in Hd as [row [<- Hrow]].
  apply filter_In in Hrow as [Hrow _]. apply Hok, Nat.eqb_eq in Hrow.
  rewrite reader_row_full by assumption. split.
  - apply dict_of_zip_keys_congr. rewrite !length_map. exact Hrow.
  - apply dict_of_zip_plain.
Qed.
End Tables.

(** ** Writing a table *)

Section Writing.
Variable self : Database.
Variable tabla : string.
Implicit Types (fs : gmap string file) (d : dict) (K : list key) (recs : list dict).

Lemma uniform_fits K recs : uniform K recs → Forall (fun d => fits K d = true) recs.
Proof.
  intros HU. eapply Forall_impl; [exact HU|].
  intros d [Hk _]. apply fits_spec. intros k. rewrite Hk. auto.
Qed.

Lemma uniform_filter K (p : dict → bool) recs : uniform K recs → uniform K (List.filter p recs).
Proof.
  unfold uniform. rewrite !Forall_forall. intros H d Hd.
  apply list_elem_of_In, filter_In in Hd as [Hd _]. apply H, list_elem_of_In, Hd.
Qed.

Lemma uniform_normalise K recs : NoDup K → uniform K recs → List.map (normalise K) recs = recs.
Proof.
  intros Hnd. induction 1 as [|d recs [Hk Hp] _ IH]; simpl; [reflexivity|].
  rewrite IH. f_equal. rewrite <- Hk in *.
  rewrite normalise_same_keys by assumption. apply stringify_plain, Hp.
Qed.

Lemma write_fit d0 rest fs :
  Forall (fun d => fits (dict_keys d0) d = true) (d0 :: rest) →
  _write_csv self tabla (d0 :: rest) fs
  = (Returns tt, written self tabla (dict_keys d0) (d0 :: rest) fs).
Proof.
  intros Hfit. unfold _write_csv. rewrite writerows_fit by assumption. reflexivity.
Qed.

Lemma stored_written K recs fs :
  NoDup K → Forall (fun k => is_Some k) K → K ≠ [] →
  stored self tabla (written self tabla K recs fs) = List.map (normalise K) recs.
Proof.
  intros Hnd HS Hne. unfold written. rewrite stored_insert.
  apply DictReader_written; assumption.
Qed.

Lemma table_ok_written K recs fs : table_ok self tabla (written self tabla K recs fs) = true.
Proof.
  unfold table_ok, written. rewrite lookup_insert_eq. unfold rectangular.
  apply forallb_forall. intros row Hrow. apply in_map_iff in Hrow as [d [<- _]].
  unfold row_of. rewrite !length_map. apply Nat.eqb_refl.
Qed.

Lemma written_written K recs K' recs' fs :
  written self tabla K recs (written self tabla K' recs' fs) = written self tabla K recs fs.
Proof. unfold written. apply insert_insert_eq. Qed.

(** What [delete] does to a table state. *)
Lemma delete_local remote i fs :
  csv_mode self = true → table_ok self tabla fs = true →
  delete self remote tabla i fs
  = (Returns true,
     match List.filter (fun r => negb (has_id (py_str i) r)) (stored self tabla fs) with
     | [] => fs
     | d0 :: rest => written self tabla (dict_keys d0) (d0 :: rest) fs
     end).
Proof.
  intros Hmode Hok. unfold delete, try_except, delete_body, bind. rewrite Hmode.
  rewrite read_stored by (apply table_ok_readable, Hok).
  change (fun r => negb (py_eq (py_get r id_key VNone) (VStr (py_str i))))
    with (fun r => negb (has_id (py_str i) r)).
  destruct (stored_uniform self tabla fs Hok) as (K & _ & _ & _ & HU).
  apply (uniform_filter K (fun r => negb (has_id (py_str i) r))) in HU.
  destruct (List.filter _ (stored self tabla fs)) as [|d0 rest]; [reflexivity|].
  rewrite write_fit; [reflexivity|].
  pose proof (Forall_inv HU) as [Hk0 _]. rewrite Hk0. apply uniform_fits, HU.
Qed.

Lemma filter_filter_same {A : Type} (p : A → bool) (l : list A) :
  List.filter p (List.filter p l) = List.filter p l.
Proof.
  apply filter_all, Forall_forall. intros x Hx.
  apply list_elem_of_In, filter_In in Hx as [_ Hx]. exact Hx.
Qed.

(** The records left by a [delete] that leaves some. *)
Lemma delete_stored i fs d0 rest :
  table_ok self tabla fs = true →
  List.filter (fun r => negb (has_id (py_str i) r)) (stored self tabla fs) = d0 :: rest →
  stored self tabla (written self tabla (dict_keys d0) (d0 :: rest) fs) = d0 :: rest.
Proof.
  intros Hok Hkept.
  destruct (stored_uniform self tabla fs Hok) as (K & Hnd & HS & Hne & HU).
  apply (uniform_filter K (fun r => negb (has_id (py_str i) r))) in HU.
  rewrite Hkept in HU. pose proof (Forall_inv HU) as [Hk0 _]. subst K.
  assert (HK : dict_keys d0 ≠ []).
  { apply Hne. intros Hnil. rewrite Hnil in Hkept. discriminate. }
  rewrite stored_written by assumption. apply uniform_normalise; assumption.
Qed.
End Writing.

(** ** The operations in local mode *)

Section Local.
Variable self : Database.
Variable tabla : string.
Hypothesis local_mode : csv_mode self = true.
Implicit Types (fs : gmap string file) (d : dict) (K : list key) (recs : list dict).

Lemma select_local remote filtros fs :
  fs !! _get_csv_path self tabla ≠ Some Malformed →
  select self remote tabla filtros fs
  = (Returns (if truthy filtros
              then List.filter (matches (default [] filtros)) (stored self tabla fs)
              else stored self tabla fs), fs).
Proof.
  intros Hr. unfold select, try_except, select_body, bind. rewrite local_mode.
  rewrite read_stored by assumption. destruct (truthy filtros); reflexivity.
Qed.

(** After a [delete] that leaves some record, [select] returns the
    records left. *)
Lemma delete_select_remaining remote remote' i fs :
  table_ok self tabla fs = true →
  List.filter (fun r => negb (has_id (py_str i) r)) (stored self tabla fs) ≠ [] →
  fst (select self remote' tabla None (snd (delete self remote tabla i fs)))
  = Returns (List.filter (fun r => negb (has_id (py_str i) r)) (stored self tabla fs)).
Proof.
  intros Hok Hne. rewrite delete_local by assumption. simpl.
  destruct (List.filter _ (stored self tabla fs)) as [|d0 rest] eqn:Hkept; [congruence|].
  rewrite select_local by (apply table_ok_readable, table_ok_written). simpl.
  rewrite (delete_stored self tabla i fs d0 rest Hok Hkept). reflexivity.
Qed.

End Local.

(** ** The store with its console and its disk *)

Section IoAgrees.
Variable w : world.
Variable self : Database.
Variable tabla : string.
Implicit Types (fs : gmap string file) (d : dict) (K : list key) (recs : list dict).

Lemma readable_not_malformed fs :
  readable self tabla fs = true → fs !! _get_csv_path self tabla ≠ Some Malformed.
Proof. unfold readable. intros H Hm. rewrite Hm in H. discriminate. Qed.

Lemma io_read_agrees fs :
  readable self tabla fs = true → Io._read_csv self tabla fs = _read_csv self tabla fs.
Proof.
  unfold readable, Io._read_csv, _read_csv.
  destruct (fs !! _get_csv_path self tabla) as [[|rows]|]; [discriminate | | reflexivity].
  intros ->. reflexivity.
Qed.

Lemma io_read_stored fs :
  readable self tabla fs = true →
  Io._read_csv self tabla fs = (Returns (stored self tabla fs), fs).
Proof.
  intros H. rewrite io_read_agrees by assumption.
  apply read_stored, readable_not_malformed, H.
Qed.

Lemma io_read_raises fs :
  readable self tabla fs = false → Io._read_csv self tabla fs = (Raises CsvError, fs).
Proof.
  unfold readable, Io._read_csv.
  destruct (fs !! _get_csv_path self tabla) as [[|rows]|]; [reflexivity | | discriminate].
  intros ->. reflexivity.
Qed.

Lemma io_read_keeps_fs fs : snd (Io._read_csv self tabla fs) = fs.
Proof.
  unfold Io._read_csv. destruct (fs !! _get_csv_path self tabla) as [[|rows]|];
    [reflexivity | destruct (within_limit rows); reflexivity | reflexivity].
Qed.

Lemma io_write_agrees datos fs :
  disk w (_get_csv_path self tabla) = Written →
  Io._write_csv w self tabla datos fs = _write_csv self tabla datos fs.
Proof.
  intros Ho. unfold Io._write_csv, _write_csv. destruct datos as [|d0 rest]; [reflexivity|].
  rewrite Ho. reflexivity.
Qed.

(** A write leaves the files alone, or is the plain write, or breaks. *)
Lemma io_write_cases datos fs :
  snd (Io._write_csv w self tabla datos fs) = fs
  ∨ Io._write_csv w self tabla datos fs = _write_csv self tabla datos fs
  ∨ ∃ e remains, disk w (_get_csv_path self tabla) = Broken e remains
                 ∧ snd (Io._write_csv w self tabla datos fs)
                   = <[_get_csv_path self tabla := remains]> fs.
Proof.
  unfold Io._write_csv, _write_csv. destruct datos as [|d0 rest]; [left; reflexivity|].
  destruct (disk w (_get_csv_path self tabla)) as [|e|e remains].
  - right. left. reflexivity.
  - left. reflexivity.
  - right. right. exists e, remains. split; reflexivity.
Qed.

Lemma io_select_body_agrees remote filtros fs :
  readable self tabla fs = true →
  Io.select_body self remote tabla filtros fs = select_body self remote tabla filtros fs.
Proof.
  intros Hr. unfold Io.select_body, select_body, bind.
  destruct (csv_mode self); [|reflexivity].
  rewrite io_read_agrees by assumption. reflexivity.
Qed.


Lemma io_update_body_agrees remote i datos fs :
  readable self tabla fs = true →
  disk w (_get_csv_path self tabla) = Written →
  Io.update_body w self remote tabla i datos fs = update_body self remote tabla i datos fs.
Proof.
  intros Hr Ho. unfold Io.update_body, update_body, bind.
  destruct (csv_mode self); [|reflexivity].
  rewrite io_read_agrees by assumption.
  destruct (_read_csv self tabla fs) as [[regs|e] fs']; [|reflexivity].
  rewrite io_write_agrees by assumption. reflexivity.
Qed.

Lemma io_delete_body_agrees remote i fs :
  readable self tabla fs = true →
  disk w (_get_csv_path self tabla) = Written →
  Io.delete_body w self remote tabla i fs = delete_body self remote tabla i fs.
Proof.
  intros Hr Ho. unfold Io.delete_body, delete_body, bind.
  destruct (csv_mode self); [|reflexivity].
  rewrite io_read_agrees by assumption.
  destruct (_read_csv self tabla fs) as [[regs|e] fs']; [|reflexivity].
  rewrite io_write_agrees by assumption. reflexivity.
Qed.

(** A result other than the fallback comes from the body, so the handler
    and its [print] have not run. *)
Lemma io_try_value {A : Type} (msg : message) (body body' : M A) (fallback a : A) fs :
  body fs = body' fs →
  fst (try_except body' fallback fs) = Returns a → a ≠ fallback →
  Io.try_except w msg body fallback fs = try_except body' fallback fs.
Proof.
  intros Hb. unfold Io.try_except, try_except. rewrite Hb.
  destruct (body' fs) as [[x|e] fs']; [reflexivity|].
  cbn [fst]. intros [= <-] Hne. congruence.
Qed.

(** A call that returns has printed what it had to print. *)
Lemma io_try_result {A : Type} (msg : message) (body body' : M A) (fallback a : A) fs :
  body fs = body' fs →
  fst (Io.try_except w msg body fallback fs) = Returns a →
  Io.try_except w msg body fallback fs = try_except body' fallback fs.
Proof.
  intros Hb. unfold Io.try_except, try_except. rewrite Hb.
  destruct (body' fs) as [[x|e] fs']; [reflexivity|].
  destruct (print w msg) as [[]|e']; [reflexivity | discriminate].
Qed.

Lemma io_select_local remote filtros fs :
  csv_mode self = true → readable self tabla fs = true →
  Io.select w self remote tabla filtros fs
  = (Returns (if truthy filtros
              then List.filter (matches (default [] filtros)) (stored self tabla fs)
              else stored self tabla fs), fs).
Proof.
  intros Hmode Hr. unfold Io.select, Io.try_except, Io.select_body, bind. rewrite Hmode.
  rewrite io_read_stored by assumption. destruct (truthy filtros); reflexivity.
Qed.


Lemma io_update_agrees remote i datos fs :
  readable self tabla fs = true →
  disk w (_get_csv_path self tabla) = Written →
  fst (update self remote tabla i datos fs) = Returns true →
  Io.update w self remote tabla i datos fs = update self remote tabla i datos fs.
Proof.
  intros Hr Ho Hret. unfold Io.update, update.
  apply (io_try_value _ _ _ false true); [|exact Hret | discriminate].
  apply io_update_body_agrees; assumption.
Qed.

Lemma io_delete_agrees remote i fs :
  readable self tabla fs = true →
  disk w (_get_csv_path self tabla) = Written →
  fst (delete self remote tabla i fs) = Returns true →
  Io.delete w self remote tabla i fs = delete self remote tabla i fs.
Proof.
  intros Hr Ho Hret. unfold Io.delete, delete.
  apply (io_try_value _ _ _ false true); [|exact Hret | discriminate].
  apply io_delete_body_agrees; assumption.
Qed.

Lemma io_update_result remote i datos fs b :
  readable self tabla fs = true →
  disk w (_get_csv_path self tabla) = Written →
  fst (Io.update w self remote tabla i datos fs) = Returns b →
  Io.update w self remote tabla i datos fs = update self remote tabla i datos fs.
Proof.
  intros Hr Ho Hret. unfold Io.update, update.
  apply (io_try_result _ _ _ false b); [|exact Hret].
  apply io_update_body_agrees; assumption.
Qed.
End IoAgrees.

(** ** Fields within the limit of the reader *)

Section Limit.
Variable self : Database.
Variable tabla : string.
Implicit Types (fs : gmap string file) (d : dict) (K : list key) (recs : list dict).

Lemma short_record_spec d :
  short_record d = true
  ↔ ∀ k v, In (k, v) d → short (key_field k) = true ∧ short (to_field v) = true.
Proof.
  unfold short_record. rewrite forallb_forall. split.
  - intros H k v Hin. apply H in Hin. apply andb_true_iff in Hin. exact Hin.
  - intros H [k v] Hin. apply andb_true_iff. apply H, Hin.
Qed.

Lemma dict_get_In d k v : dict_get d k = Some v → In (k, v) d.
Proof.
  induction d as [|[k0 v0] d IH]; simpl; [discriminate|].
  destruct (bool_decide_reflect (k0 = k)) as [->|Hne].
  - intros [= ->]. left. reflexivity.
  - intros H. right. apply IH, H.
Qed.

Lemma short_row_of K d :
  short_record d = true → forallb short (row_of K d) = true.
Proof.
  intros Hd. apply forallb_forall. intros s Hs.
  apply in_map_iff in Hs as [k [<- _]]. unfold py_get.
  destruct (dict_get d k) as [v|] eqn:Hg; [|reflexivity].
  apply dict_get_In in Hg. apply (proj1 (short_record_spec d) Hd k v Hg).
Qed.

Lemma short_keys d :
  short_record d = true → forallb short (List.map key_field (dict_keys d)) = true.
Proof.
  intros Hd. apply forallb_forall. intros s Hs.
  apply in_map_iff in Hs as [k [<- Hk]]. apply in_map_iff in Hk as [[k' v] [<- Hin]].
  apply (proj1 (short_record_spec d) Hd k' v Hin).
Qed.

(** Short records written under short column names can be read back. *)
Lemma readable_written K recs fs :
  forallb short (List.map key_field K) = true →
  Forall (fun d => short_record d = true) recs →
  readable self tabla (written self tabla K recs fs) = true.
Proof.
  intros HK Hrecs. unfold readable, written. rewrite lookup_insert_eq.
  unfold within_limit. cbn [forallb]. rewrite HK. cbn [andb].
  apply forallb_forall. intros row Hrow. apply in_map_iff in Hrow as [d [<- Hd]].
  apply short_row_of. rewrite List.Forall_forall in Hrecs. apply Hrecs, Hd.
Qed.

Lemma dict_set_In d k v k' v' :
  In (k', v') (dict_set d k v) → (k', v') = (k, v) ∨ In (k', v') d.
Proof.
  induction d as [|[k0 v0] d IH]; simpl.
  - intros [H|[]]. left. congruence.
  - destruct (bool_decide_reflect (k0 = k)) as [->|Hne]; simpl.
    + intros [H|H]; [left; congruence | right; right; exact H].
    + intros [H|H]; [right; left; exact H|]. destruct (IH H) as [?|?]; [left | right; right]; assumption.
Qed.

Lemma dict_update_In d other k v :
  In (k, v) (dict_update d other) → In (k, v) d ∨ In (k, v) other.
Proof.
  unfold dict_update. revert d. induction other as [|[k0 v0] o IH]; intros d; simpl.
  - auto.
  - intros H. apply IH in H as [H|H]; [|right; right; exact H].
    apply dict_set_In in H as [H|H]; [right; left; congruence | left; exact H].
Qed.

(** What a readable table state holds is short. *)
Lemma stored_short fs :
  table_ok self tabla fs = true → readable self tabla fs = true →
  Forall (fun d => short_record d = true) (stored self tabla fs).
Proof.
  unfold table_ok, readable, stored.
  destruct (fs !! _get_csv_path self tabla) as [[|[|h rest]]|];
    intros Hok Hr; try constructor.
  unfold rectangular in Hok. rewrite forallb_forall in Hok.
  unfold within_limit in Hr. cbn [forallb] in Hr. apply andb_true_iff in Hr as [Hh Hrest].
  rewrite forallb_forall in Hh, Hrest.
  apply List.Forall_forall. intros d Hd. unfold DictReader in Hd.
  apply in_map_iff in Hd as [row [<- Hrow]]. apply filter_In in Hrow as [Hrow _].
  rewrite reader_row_full by (apply Nat.eqb_eq, Hok, Hrow).
  apply short_record_spec. intros k v Hin.
  change (dict_of_zip (List.map Some h) (List.map VStr row))
    with (dict_update [] (combine (List.map Some h) (List.map VStr row))) in Hin.
  apply dict_update_In in Hin as [[]|Hin].
  pose proof (in_combine_l _ _ _ _ Hin) as Hk. pose proof (in_combine_r _ _ _ _ Hin) as Hv.
  apply in_map_iff in Hk as [name [<- Hname]]. apply in_map_iff in Hv as [s [<- Hs]].
  split; [apply Hh, Hname|]. specialize (Hrest row Hrow). rewrite forallb_forall in Hrest.
  apply Hrest, Hs.
Qed.


End Limit.

(** ** Properties of the store *)

(** Claim C1, at the input on which the code fails it.  The table holds the
    single record with id [1]; [delete] of that id returns [True], yet the
    following [select] still returns the record, where the records whose id
    differs from ['1'] are none: [_write_csv] returns early on an empty
    list, so the file is left as it was. *)
Theorem delete_last_record_survives :
  stored csv_store "clientes" one_client = [ana]
  ∧ List.filter (fun r => negb (has_id (py_str (VInt 1)) r)) [ana] = []
  ∧ fst (delete csv_store unused "clientes" (VInt 1) one_client) = Returns true
  ∧ fst (select csv_store unused "clientes" None
           (snd (delete csv_store unused "clientes" (VInt 1) one_client)))
    = Returns [ana].
Proof. vm_compute. repeat split; reflexivity. Qed.

(** ** The records [csv.DictReader] builds, and the filter of [select] *)

Section Records.
Implicit Types (d L : dict) (k : key) (v : value) (h row : list string).

Lemma dict_get_elem d k v : NoDup (dict_keys d) → dict_get d k = Some v ↔ (k, v) ∈ d.
Proof.
  induction d as [|[k0 v0] d IH]; simpl; intros Hnd.
  - split; [discriminate | intros H; apply elem_of_nil in H as []].
  - apply NoDup_cons in Hnd as [Hk0 Hnd]. rewrite elem_of_cons.
    destruct (bool_decide_reflect (k0 = k)) as [->|Hne].
    + split; [intros [= ->]; left; reflexivity|].
      intros [[= ->]|Hin]; [reflexivity|]. exfalso. apply Hk0.
      apply list_elem_of_In, in_map_iff. exists (k, v). split; [reflexivity|].
      apply list_elem_of_In, Hin.
    + rewrite (IH Hnd). split; [auto|]. intros [[= -> ->]|Hin]; [congruence | exact Hin].
Qed.

(** The binding of [k] that [dict(L)] keeps is the last one in [L]. *)
Lemma dict_get_rev_last L k v :
  dict_get (rev L) k = Some v
  ↔ ∃ j, L !! j = Some (k, v) ∧ ∀ j' kv, (j < j')%nat → L !! j' = Some kv → fst kv ≠ k.
Proof.
  induction L as [|[k0 v0] L IH]; simpl.
  - split; [discriminate | intros (j & Hj & _); discriminate].
  - rewrite dict_get_app.
    destruct (dict_get (rev L) k) as [v'|] eqn:Hg.
    + split.
      * intros [= ->]. destruct (proj1 IH eq_refl) as (j & Hj & Hlast).
        exists (S j). split; [exact Hj|]. intros [|j'] kv Hlt; [lia|].
        apply Hlast. lia.
      * intros (j & Hj & Hlast). destruct j as [|j].
        -- exfalso.
           assert (Hex : ∃ j v1, L !! j = Some (k, v1)).
           { clear -Hg. revert Hg. generalize v'. clear v'.
             induction L as [|[k1 v1] L IHL]; simpl; [discriminate|]. intros v'.
             rewrite dict_get_app. destruct (dict_get (rev L) k) as [v2|] eqn:Hg2.
             - intros _. destruct (IHL v2 eq_refl) as (j & v3 & Hj). exists (S j), v3. exact Hj.
             - simpl. destruct (bool_decide_reflect (k1 = k)) as [->|]; [|discriminate].
               intros _. exists 0%nat, v1. reflexivity. }
           destruct Hex as (j & v1 & Hj1).
           apply (Hlast (S j) (k, v1)); [lia | exact Hj1 | reflexivity].
        -- apply IH. exists j. split; [exact Hj|]. intros j' kv Hlt Hkv.
           apply (Hlast (S j') kv); [lia | exact Hkv].
    + apply dict_get_rev_None in Hg. simpl.
      assert (Hno : ∀ j v1, L !! j ≠ Some (k, v1)).
      { intros j v1 Hj. apply Hg. apply list_elem_of_In, in_map_iff. exists (k, v1).
        split; [reflexivity|]. apply list_elem_of_In. eapply list_elem_of_lookup_2, Hj. }
      destruct (bool_decide_reflect (k0 = k)) as [->|Hne].
      * split.
        -- intros [= ->]. exists 0%nat. split; [reflexivity|].
           intros [|j'] [k1 v1] Hlt Hkv; [lia|]. simpl in *. intros ->.
           exact (Hno j' v1 Hkv).
        -- intros ([|j] & Hj & _); simpl in Hj; [congruence|]. exfalso. exact (Hno j v Hj).
      * split; [discriminate|].
        intros ([|j] & Hj & _); simpl in Hj; [congruence|]. exfalso. exact (Hno j v Hj).
Qed.

Lemma combine_nil_r {A B : Type} (l : list A) : combine l (@nil B) = [].
Proof. destruct l; reflexivity. Qed.

(** The pairs [DictReader] zips and pads: one for each column. *)
Lemma reader_pairs h row :
  combine (List.map Some h) (List.map VStr row)
  ++ List.map (fun name => (Some name, VNone)) (drop (length row) h)
  = imap (fun j name => (Some name, cell row j)) h.
Proof.
  revert row. induction h as [|a h IH]; intros row.
  - rewrite drop_nil. reflexivity.
  - destruct row as [|s row].
    + specialize (IH []). cbn [List.map length] in IH.
      rewrite combine_nil_r, drop_0 in IH. cbn [app] in IH.
      cbn [List.map combine app length drop imap]. f_equal. rewrite IH. apply imap_ext.
      intros j name _. reflexivity.
    + cbn [List.map combine app length drop imap]. f_equal. rewrite IH. apply imap_ext.
      intros j name _. reflexivity.
Qed.

Lemma fold_set_None (names : list string) d :
  fold_left (fun acc name => dict_set acc (Some name) VNone) names d
  = dict_update d (List.map (fun name => (Some name, VNone)) names).
Proof.
  unfold dict_update. revert d. induction names as [|a names IH]; intros d; [reflexivity|].
  simpl. apply IH.
Qed.

Lemma dict_update_app d L1 L2 : dict_update (dict_update d L1) L2 = dict_update d (L1 ++ L2).
Proof. unfold dict_update. rewrite fold_left_app. reflexivity. Qed.

(** [reader_row] is [dict] of the padded pairs, with the rest key when the
    row is longer than the header. *)
Lemma reader_row_pairs h row :
  reader_row h row
  = let d := dict_update [] (imap (fun j name => (Some name, cell row j)) h) in
    if (length h <? length row)%nat then dict_set d None (VList (drop (length h) row)) else d.
Proof.
  unfold reader_row. cbv zeta. rewrite <- reader_pairs.
  change (dict_of_zip (List.map Some h) (List.map VStr row))
    with (dict_update [] (combine (List.map Some h) (List.map VStr row))).
  destruct (Nat.ltb_spec (length h) (length row)) as [Hlt|Hge].
  - rewrite (drop_ge h (length row)) by lia. rewrite app_nil_r. reflexivity.
  - rewrite fold_set_None, dict_update_app. reflexivity.
Qed.

Lemma imap_keys_Some h row k :
  k ∈ dict_keys (imap (fun j name => (Some name, cell row j)) h) → is_Some k.
Proof.
  unfold dict_keys. intros Hk. apply list_elem_of_In, in_map_iff in Hk as [[k' v] [<- Hin]].
  apply list_elem_of_In, list_elem_of_lookup in Hin as [j Hj].
  rewrite list_lookup_imap in Hj. destruct (h !! j); [|discriminate].
  injection Hj as <- _. eexists; reflexivity.
Qed.

Lemma dict_update_nil_NoDup L : NoDup (dict_keys (dict_update [] L)).
Proof.
  unfold dict_update. assert (Hnil : NoDup (dict_keys [])) by apply NoDup_nil_2.
  revert Hnil. generalize (@nil (key * value)) as acc.
  induction L as [|[k v] L IH]; intros acc Hacc; simpl; [assumption|].
  apply IH, dict_set_NoDup, Hacc.
Qed.

Lemma pairs_lookup L h row j :
  L = imap (fun j name => (Some name, cell row j)) h →
  L !! j = (fun name => (Some name : key, cell row j)) <$> h !! j.
Proof. intros ->. apply list_lookup_imap. Qed.

(** [csv.DictReader] builds the record of each row. *)
Lemma reader_row_record h row : record_of h row (reader_row h row).
Proof.
  rewrite reader_row_pairs. cbv zeta.
  set (L := imap (fun j name => (Some name, cell row j)) h : dict).
  assert (HD : NoDup (dict_keys (dict_update [] L))) by apply dict_update_nil_NoDup.
  assert (Hnamed : ∀ name v,
             dict_get (dict_update [] L) (Some name) = Some v
             ↔ ∃ j, h !! j = Some name
                    ∧ (∀ j', (j < j')%nat → h !! j' ≠ Some name)
                    ∧ v = cell row j).
  { intros name v. rewrite dict_update_get.
    change (dict_get [] (Some name)) with (@None value).
    transitivity (dict_get (rev L) (Some name) = Some v).
    { destruct (dict_get (rev L) (Some name)); reflexivity. }
    rewrite dict_get_rev_last. split.
    - intros (j & Hj & Hlast). exists j. rewrite (pairs_lookup L h row j eq_refl) in Hj.
      destruct (h !! j) as [a|] eqn:Ha; [|discriminate]. injection Hj as -> <-.
      split; [reflexivity|]. split; [|reflexivity].
      intros j' Hlt Hj'. apply (Hlast j' (Some name, cell row j') Hlt); [|reflexivity].
      rewrite (pairs_lookup L h row j' eq_refl), Hj'. reflexivity.
    - intros (j & Hj & Hlast & ->). exists j. split.
      + rewrite (pairs_lookup L h row j eq_refl), Hj. reflexivity.
      + intros j' [k1 v1] Hlt Hkv. rewrite (pairs_lookup L h row j' eq_refl) in Hkv.
        destruct (h !! j') as [a|] eqn:Ha; [|discriminate]. injection Hkv as <- <-.
        cbn [fst]. intros [= ->]. exact (Hlast j' Hlt Ha). }
  assert (Hnone : dict_get (dict_update [] L) None = None).
  { apply dict_get_None. intros Hk. apply dict_update_keys in Hk as [Hk|Hk].
    - apply elem_of_nil in Hk as [].
    - apply (imap_keys_Some h row) in Hk as [s Hs]. discriminate. }
  destruct (Nat.ltb_spec (length h) (length row)) as [Hlt|Hge].
  - split; [apply dict_set_NoDup, HD|]. split.
    + intros name v. rewrite <- dict_get_elem by (apply dict_set_NoDup, HD).
      rewrite dict_get_set. rewrite bool_decide_eq_false_2 by discriminate. apply Hnamed.
    + intros v. rewrite <- dict_get_elem by (apply dict_set_NoDup, HD).
      rewrite dict_get_set. rewrite bool_decide_eq_true_2 by reflexivity.
      split; [intros [= <-]; split; [exact Hlt | reflexivity] | intros [_ ->]; reflexivity].
  - split; [exact HD|]. split.
    + intros name v. rewrite <- dict_get_elem by exact HD. apply Hnamed.
    + intros v. rewrite <- dict_get_elem by exact HD. rewrite Hnone.
      split; [discriminate | intros [Hlt _]; lia].
Qed.

Lemma filter_nonblank (rest : list (list string)) :
  List.filter (fun r => negb (is_blank r)) rest = filter (fun row => row ≠ []) rest.
Proof.
  induction rest as [|row rest IH]; [reflexivity|].
  rewrite filter_cons. simpl. rewrite IH.
  destruct row as [|s row]; simpl.
  - destruct (decide ([] ≠ @nil string)); [congruence | reflexivity].
  - destruct (decide (s :: row ≠ [])); [reflexivity | exfalso; auto].
Qed.

(** What the store reads from a table file are the records of the file. *)
Lemma stored_records (self : Database) (tabla : string) (fs : gmap string file) :
  fs !! _get_csv_path self tabla ≠ Some Malformed →
  records_of (fs !! _get_csv_path self tabla) (stored self tabla fs).
Proof.
  unfold records_of, stored. intros Hr.
  destruct (fs !! _get_csv_path self tabla) as [[|[|h rest]]|]; [congruence | reflexivity | | reflexivity].
  unfold DictReader. rewrite filter_nonblank.
  induction (filter (fun row => row ≠ []) rest) as [|row rows IH]; constructor;
    [apply reader_row_record | exact IH].
Qed.

(** The test of [select] on a record with distinct keys. *)
Lemma matches_listed filtros d :
  NoDup (dict_keys d) → matches filtros d = true ↔ listed_or_absent filtros d.
Proof.
  intros Hnd. unfold matches, listed_or_absent, py_eq, py_get.
  rewrite forallb_forall, List.Forall_forall.
  assert (Hone : ∀ kv : key * value,
             match dict_get d (fst kv) with Some v => v | None => VNone end = snd kv
             ↔ kv ∈ d ∨ (snd kv = VNone ∧ fst kv ∉ dict_keys d)).
  { intros [k v]. cbn [fst snd]. destruct (dict_get d k) as [v'|] eqn:Hg.
    - split.
      + intros ->. left. apply dict_get_elem; assumption.
      + intros [Hin | [_ Hno]].
        * apply dict_get_elem in Hin; [congruence | assumption].
        * exfalso. apply Hno. eapply dict_get_Some_in, Hg.
    - split.
      + intros <-. right. split; [reflexivity|]. apply dict_get_None, Hg.
      + intros [Hin | [-> _]]; [|reflexivity].
        apply dict_get_elem in Hin; [congruence | assumption]. }
  split; intros H kv Hkv.
  - apply Hone. apply H in Hkv. apply bool_decide_eq_true_1 in Hkv. exact Hkv.
  - apply bool_decide_eq_true_2, Hone, H, Hkv.
Qed.

Lemma filter_listed filtros recs :
  Forall (fun d => NoDup (dict_keys d)) recs →
  List.filter (matches filtros) recs = filter (listed_or_absent filtros) recs.
Proof.
  induction 1 as [|d recs Hd _ IH]; [reflexivity|].
  simpl. rewrite filter_cons, IH.
  destruct (decide (listed_or_absent filtros d)) as [Hm|Hm].
  - apply (matches_listed filtros d Hd) in Hm. rewrite Hm. reflexivity.
  - destruct (matches filtros d) eqn:E; [|reflexivity].
    apply (matches_listed filtros d Hd) in E. contradiction.
Qed.

(** Without [None] among the given values, a field that the record lacks
    never counts. *)
Lemma listed_or_absent_listed filtros d :
  Forall (fun kv => snd kv ≠ VNone) filtros →
  listed_or_absent filtros d ↔ listed filtros d.
Proof.
  unfold listed_or_absent, listed. rewrite !List.Forall_forall. intros Hv.
  split; intros H kv Hkv.
  - destruct (H kv Hkv) as [Hin | [Hnone _]]; [exact Hin|]. destruct (Hv kv Hkv Hnone).
  - left. apply H, Hkv.
Qed.

Lemma records_NoDup (f : option file) (recs : list dict) :
  records_of f recs → Forall (fun d => NoDup (dict_keys d)) recs.
Proof.
  unfold records_of. destruct f as [[|[|h rest]]|]; try (intros ->; constructor); [intros []|].
  induction 1 as [|row d rows recs [Hd _] _ IH]; constructor; assumption.
Qed.
End Records.

(** Claim C5, as amended: in local mode, on a table file that can be read,
    [select] without filters, or with an empty filter, returns the records
    of the file, one for each non-blank row after the header, in order; and
    [select] with a non-empty filter returns, in the same order, those of them in which every listed
    field has the given value, a field that the record lacks counting as
    [None].  So, when no given value is [None], it returns exactly the
    records that have every listed field with the given value. *)
Theorem select_filters (w : world) (self : Database) (remote : reply) (tabla : string)
    (fs : gmap string file) :
  csv_mode self = true →
  readable self tabla fs = true →
  ∃ recs,
    records_of (fs !! _get_csv_path self tabla) recs
    ∧ fst (Io.select w self remote tabla None fs) = Returns recs
    ∧ fst (Io.select w self remote tabla (Some []) fs) = Returns recs
    ∧ (∀ filtros : dict, filtros ≠ [] →
         fst (Io.select w self remote tabla (Some filtros) fs)
         = Returns (filter (listed_or_absent filtros) recs))
    ∧ (∀ filtros : dict, filtros ≠ [] → Forall (fun kv => snd kv ≠ VNone) filtros →
         fst (Io.select w self remote tabla (Some filtros) fs)
         = Returns (filter (listed filtros) recs)).
Proof.
  intros Hmode Hr. exists (stored self tabla fs).
  pose proof (stored_records self tabla fs (readable_not_malformed self tabla fs Hr)) as Hrecs.
  pose proof (records_NoDup _ _ Hrecs) as Hnd.
  assert (Hsel : ∀ filtros : dict, filtros ≠ [] →
             fst (Io.select w self remote tabla (Some filtros) fs)
             = Returns (filter (listed_or_absent filtros) (stored self tabla fs))).
  { intros filtros Hne. rewrite io_select_local by assumption.
    destruct filtros as [|kv f]; [congruence|]. cbn [truthy fst default from_option id].
    f_equal. apply filter_listed, Hnd. }
  split; [exact Hrecs|]. split; [|split; [|split]].
  - rewrite io_select_local by assumption. reflexivity.
  - rewrite io_select_local by assumption. reflexivity.
  - exact Hsel.
  - intros filtros Hne Hv. rewrite Hsel by assumption. f_equal.
    apply list_filter_iff. intros d. apply listed_or_absent_listed, Hv.
Qed.

Lemma select_filters_witness :
  ∃ recs,
    records_of (two_clients !! _get_csv_path csv_store "clientes") recs
    ∧ fst (Io.select quiet csv_store unused "clientes" None two_clients) = Returns recs
    ∧ fst (Io.select quiet csv_store unused "clientes" (Some []) two_clients) = Returns recs
    ∧ (∀ filtros : dict, filtros ≠ [] →
         fst (Io.select quiet csv_store unused "clientes" (Some filtros) two_clients)
         = Returns (filter (listed_or_absent filtros) recs))
    ∧ (∀ filtros : dict, filtros ≠ [] → Forall (fun kv => snd kv ≠ VNone) filtros →
         fst (Io.select quiet csv_store unused "clientes" (Some filtros) two_clients)
         = Returns (filter (listed filtros) recs)).
Proof.
  apply (select_filters quiet csv_store unused "clientes" two_clients); reflexivity.
Defined.

(** Claim C5 as stated fails: a filter that gives [None] for a field [zip]
    that no record has selects every record, although no record has a
    field [zip] equal to [None]. *)
Lemma select_absent_field :
  fst (Io.select quiet csv_store unused "clientes" (Some [(Some "zip", VNone)]) two_clients)
  = Returns [ana; bo]
  ∧ filter (listed [(Some "zip", VNone)]) [ana; bo] = []
  ∧ ¬ listed [(Some "zip", VNone)] ana
  ∧ ¬ listed [(Some "zip", VNone)] bo.
Proof.
  split; [vm_compute; reflexivity|]. split; [vm_compute; reflexivity|].
  split; intros H; apply Forall_inv in H; vm_compute in H;
    repeat (apply elem_of_cons in H as [H|H]; [discriminate|]); apply elem_of_nil in H as [].
Qed.

(** Claim C6, as amended: in local mode, on a table file as the store
    writes it (no file, or every row with one field per column) that can be
    read and that the disk lets the store write, two [delete]s of the same
    id, one that [str] can turn into text, both return [True] and leave the
    file system exactly as one does. *)
Theorem delete_idempotent (w w' : world) (self : Database) (remote remote' : reply)
    (tabla : string) (i : value) (fs : gmap string file) :
  csv_mode self = true →
  table_ok self tabla fs = true →
  readable self tabla fs = true →
  disk w (_get_csv_path self tabla) = Written →
  disk w' (_get_csv_path self tabla) = Written →
  small_int i = true →
  fst (Io.delete w self remote tabla i fs) = Returns true
  ∧ fst (Io.delete w' self remote' tabla i (snd (Io.delete w self remote tabla i fs)))
    = Returns true
  ∧ snd (Io.delete w' self remote' tabla i (snd (Io.delete w self remote tabla i fs)))
    = snd (Io.delete w self remote tabla i fs).
Proof.
  intros Hmode Hok Hr Ho Ho' _.
  pose proof (delete_local self tabla remote i fs Hmode Hok) as Hd1.
  rewrite (io_delete_agrees w self tabla remote i fs Hr Ho) by (rewrite Hd1; reflexivity).
  rewrite Hd1. cbn [fst snd].
  destruct (List.filter _ (stored self tabla fs)) as [|d0 rest] eqn:Hkept.
  - pose proof (delete_local self tabla remote' i fs Hmode Hok) as Hd2.
    rewrite (io_delete_agrees w' self tabla remote' i fs Hr Ho') by (rewrite Hd2; reflexivity).
    rewrite Hd2, Hkept. repeat split; reflexivity.
  - assert (Hshort : Forall (fun d => short_record d = true) (d0 :: rest)).
    { rewrite <- Hkept. apply List.Forall_forall. intros d Hd.
      apply filter_In in Hd as [Hd _].
      pose proof (stored_short self tabla fs Hok Hr) as Hs.
      rewrite List.Forall_forall in Hs. apply Hs, Hd. }
    assert (Hr1 : readable self tabla (written self tabla (dict_keys d0) (d0 :: rest) fs) = true).
    { apply readable_written; [|exact Hshort]. apply short_keys, (Forall_inv Hshort). }
    pose proof (delete_local self tabla remote' i _ Hmode
                  (table_ok_written self tabla (dict_keys d0) (d0 :: rest) fs)) as Hd2.
    rewrite (io_delete_agrees w' self tabla remote' i _ Hr1 Ho') by (rewrite Hd2; reflexivity).
    rewrite Hd2. rewrite (delete_stored self tabla i fs d0 rest Hok Hkept).
    assert (Hsame : List.filter (fun r => negb (has_id (py_str i) r)) (d0 :: rest) = d0 :: rest)
      by (rewrite <- Hkept; apply filter_filter_same).
    rewrite Hsame. cbn [fst snd]. rewrite written_written. repeat split; reflexivity.
Qed.

Lemma delete_idempotent_witness :
  fst (Io.delete quiet csv_store unused "clientes" (VInt 1) two_clients) = Returns true
  ∧ fst (Io.delete quiet csv_store unused "clientes" (VInt 1)
           (snd (Io.delete quiet csv_store unused "clientes" (VInt 1) two_clients)))
    = Returns true
  ∧ snd (Io.delete quiet csv_store unused "clientes" (VInt 1)
           (snd (Io.delete quiet csv_store unused "clientes" (VInt 1) two_clients)))
    = snd (Io.delete quiet csv_store unused "clientes" (VInt 1) two_clients).
Proof.
  apply (delete_idempotent quiet quiet csv_store unused unused "clientes" (VInt 1) two_clients);
    reflexivity.
Defined.

(** Claim C6 as stated fails: on a file that reads well but has a row with
    a field beyond the header, [delete], here of an id that no record has,
    returns [False], and the record of that row is gone from the table.
    [delete] also returns [False], on a file as the store writes it, when
    the file does not open for writing or holds a field above the limit of
    the reader. *)
Lemma delete_on_ragged_file :
  (csv_mode csv_store = true
   ∧ stored csv_store "clientes" ragged_clients
     = [ana; [(Some "id", VStr "2"); (Some "name", VStr "Bo"); (None, VList ["x"])]]
   ∧ fst (Io.select quiet csv_store unused "clientes" None ragged_clients)
     = Returns (stored csv_store "clientes" ragged_clients)
   ∧ fst (Io.delete quiet csv_store unused "clientes" (VInt 9) ragged_clients) = Returns false
   ∧ stored csv_store "clientes"
       (snd (Io.delete quiet csv_store unused "clientes" (VInt 9) ragged_clients))
     = [ana])
  ∧ (table_ok csv_store "clientes" two_clients = true
     ∧ fst (Io.delete read_only_disk csv_store unused "clientes" (VInt 1) two_clients)
       = Returns false)
  ∧ (table_ok csv_store "clientes" long_clients = true
     ∧ fst (Io.delete quiet csv_store unused "clientes" (VInt 1) long_clients)
       = Returns false).
Proof. vm_compute. repeat split; reflexivity. Qed.



Section Bodies.
Variable w : world.
Variable self : Database.
Variable remote : reply.
Variable tabla : string.
Implicit Types (fs : gmap string file).

(** The bodies of the three writing operations return nothing but [True]. *)
Lemma insert_body_true datos fs r :
  fst (Io.insert_body w self remote tabla datos fs) = Returns r → fst r = true.
Proof.
  unfold Io.insert_body, bind, lift, ret.
  destruct (csv_mode self).
  - destruct (Io._read_csv self tabla fs) as [[regs|e] fs']; [|discriminate].
    destruct (negb (dict_has datos id_key)).
    + destruct (next_id regs) as [v|e]; [|discriminate].
      destruct (Io._write_csv w self tabla _ fs') as [[u|e] fs'']; [|discriminate].
      intros [= <-]. reflexivity.
    + destruct (Io._write_csv w self tabla _ fs') as [[u|e] fs'']; [|discriminate].
      intros [= <-]. reflexivity.
  - destruct remote; [|discriminate]. intros [= <-]. reflexivity.
Qed.

Lemma update_body_true i datos fs b :
  fst (Io.update_body w self remote tabla i datos fs) = Returns b → b = true.
Proof.
  unfold Io.update_body, bind, lift, ret.
  destruct (csv_mode self).
  - destruct (Io._read_csv self tabla fs) as [[regs|e] fs']; [|discriminate].
    destruct (Io._write_csv w self tabla _ fs') as [[u|e] fs'']; [|discriminate].
    intros [= <-]. reflexivity.
  - destruct remote; [|discriminate]. intros [= <-]. reflexivity.
Qed.

Lemma delete_body_true i fs b :
  fst (Io.delete_body w self remote tabla i fs) = Returns b → b = true.
Proof.
  unfold Io.delete_body, bind, lift, ret.
  destruct (csv_mode self).
  - destruct (Io._read_csv self tabla fs) as [[regs|e] fs']; [|discriminate].
    destruct (Io._write_csv w self tabla _ fs') as [[u|e] fs'']; [|discriminate].
    intros [= <-]. reflexivity.
  - destruct remote; [|discriminate]. intros [= <-]. reflexivity.
Qed.

(** With a [print] that goes through, a handled body gives the fallback
    exactly when it raises, provided it returns nothing but [True]. *)
Lemma handled_false msg (body : M bool) fs :
  print w msg = Returns tt →
  (∀ b, fst (body fs) = Returns b → b = true) →
  ∃ b, fst (Io.try_except w msg body false fs) = Returns b
       ∧ (b = false ↔ ∃ e, fst (body fs) = Raises e).
Proof.
  intros Hp Htrue. unfold Io.try_except.
  destruct (body fs) as [[b|e] fs'] eqn:Hb; cbn [fst] in *.
  - exists b. split; [reflexivity|]. rewrite (Htrue b eq_refl). split; [discriminate|].
    intros [e He]. discriminate.
  - rewrite Hp. exists false. split; [reflexivity|]. split; [|reflexivity].
    intros _. exists e. reflexivity.
Qed.
End Bodies.

(** Claim C7, as amended: when the message of the handler can be printed,
    each of the four operations returns a value, whatever the mode, the
    files, the disk and the backend's reply; [select] returns the empty
    list whenever its body raises, and [insert], [update] and [delete]
    return [False] exactly when their body raises. *)
Theorem no_exception_escapes (w : world) (self : Database) (remote : reply) (tabla : string)
    (filtros : option dict) (i : value) (datos : dict) (fs : gmap string file) :
  print w (MsgSelectError tabla) = Returns tt →
  print w (MsgInsertError tabla) = Returns tt →
  print w (MsgUpdateError tabla) = Returns tt →
  print w (MsgDeleteError tabla) = Returns tt →
  (∃ l, fst (Io.select w self remote tabla filtros fs) = Returns l
        ∧ ((∃ e, fst (Io.select_body self remote tabla filtros fs) = Raises e) → l = []))
  ∧ (∃ b, fst (Io.insert w self remote tabla datos fs) = Returns b
          ∧ (b = false ↔ ∃ e, fst (Io.insert_body w self remote tabla datos fs) = Raises e))
  ∧ (∃ b, fst (Io.update w self remote tabla i datos fs) = Returns b
          ∧ (b = false ↔ ∃ e, fst (Io.update_body w self remote tabla i datos fs) = Raises e))
  ∧ (∃ b, fst (Io.delete w self remote tabla i fs) = Returns b
          ∧ (b = false ↔ ∃ e, fst (Io.delete_body w self remote tabla i fs) = Raises e)).
Proof.
  intros Hs Hi Hu Hd. split; [|split; [|split]].
  - unfold Io.select, Io.try_except.
    destruct (Io.select_body self remote tabla filtros fs) as [[l|e] fs']; cbn [fst].
    + exists l. split; [reflexivity|]. intros [e He]. discriminate.
    + rewrite Hs. exists []. split; reflexivity.
  - unfold Io.insert.
    destruct (handled_false w (MsgInsertError tabla)
                (let* r := Io.insert_body w self remote tabla datos in ret (fst r)) fs Hi)
      as (b & Hb & Hiff).
    + intros b. unfold bind, ret.
      pose proof (insert_body_true w self remote tabla datos fs) as Ht.
      destruct (Io.insert_body w self remote tabla datos fs) as [[r|e] fs']; [|discriminate].
      cbn [fst] in *. intros [= <-]. apply Ht. reflexivity.
    + exists b. split; [exact Hb|]. rewrite Hiff. unfold bind, ret.
      destruct (Io.insert_body w self remote tabla datos fs) as [[r|e] fs']; cbn [fst];
        split; intros [e' He]; try discriminate; exists e'; injection He as ->; reflexivity.
  - apply handled_false; [exact Hu|]. apply update_body_true.
  - apply handled_false; [exact Hd|]. apply delete_body_true.
Qed.

(** The faults of claim C7 at work, on a console that prints: a malformed
    table file, a disk on which the file does not open, a disk that is
    full, and a backend that raises. *)
Lemma no_exception_escapes_witness :
  (fst (Io.select quiet csv_store unused "clientes" None bad_clients) = Returns []
   ∧ fst (Io.insert quiet csv_store unused "clientes" ana bad_clients) = Returns false
   ∧ fst (Io.update quiet csv_store unused "clientes" (VInt 1) ana bad_clients) = Returns false
   ∧ fst (Io.delete quiet csv_store unused "clientes" (VInt 2) bad_clients) = Returns false)
  ∧ (fst (Io.insert read_only_disk csv_store unused "clientes" bo two_clients) = Returns false
     ∧ fst (Io.update read_only_disk csv_store unused "clientes" (VInt 1) ana two_clients)
       = Returns false
     ∧ fst (Io.delete read_only_disk csv_store unused "clientes" (VInt 2) two_clients)
       = Returns false)
  ∧ fst (Io.insert full_disk csv_store unused "clientes" bo two_clients) = Returns false
  ∧ (fst (Io.select quiet remote_store (Raises BackendError) "clientes" None ∅) = Returns []
     ∧ fst (Io.insert quiet remote_store (Raises BackendError) "clientes" ana ∅) = Returns false
     ∧ fst (Io.update quiet remote_store (Raises BackendError) "clientes" (VInt 1) ana ∅)
       = Returns false
     ∧ fst (Io.delete quiet remote_store (Raises BackendError) "clientes" (VInt 1) ∅)
       = Returns false).
Proof.
  assert (Hcase : ∀ (w : world) (self : Database) (remote : reply) (i : value) (datos : dict)
                    (fs : gmap string file),
             print w (MsgSelectError "clientes") = Returns tt →
             print w (MsgInsertError "clientes") = Returns tt →
             print w (MsgUpdateError "clientes") = Returns tt →
             print w (MsgDeleteError "clientes") = Returns tt →
             ((∃ e, fst (Io.select_body self remote "clientes" None fs) = Raises e) →
              fst (Io.select w self remote "clientes" None fs) = Returns [])
             ∧ ((∃ e, fst (Io.insert_body w self remote "clientes" datos fs) = Raises e) →
                fst (Io.insert w self remote "clientes" datos fs) = Returns false)
             ∧ ((∃ e, fst (Io.update_body w self remote "clientes" i datos fs) = Raises e) →
                fst (Io.update w self remote "clientes" i datos fs) = Returns false)
             ∧ ((∃ e, fst (Io.delete_body w self remote "clientes" i fs) = Raises e) →
                fst (Io.delete w self remote "clientes" i fs) = Returns false)).
  { intros w self remote i datos fs Hs Hi Hu Hd.
    destruct (no_exception_escapes w self remote "clientes" None i datos fs Hs Hi Hu Hd)
      as ((l & Hl & Hle) & (b1 & Hb1 & Hf1) & (b2 & Hb2 & Hf2) & (b3 & Hb3 & Hf3)).
    split; [|split; [|split]]; intros He.
    - rewrite Hl, (Hle He). reflexivity.
    - rewrite Hb1, (proj2 Hf1 He). reflexivity.
    - rewrite Hb2, (proj2 Hf2 He). reflexivity.
    - rewrite Hb3, (proj2 Hf3 He). reflexivity. }
  split; [|split; [|split]].
  - destruct (Hcase quiet csv_store unused (VInt 1) ana bad_clients eq_refl eq_refl eq_refl eq_refl)
      as (Hs & Hi & Hu & _).
    destruct (Hcase quiet csv_store unused (VInt 2) ana bad_clients eq_refl eq_refl eq_refl eq_refl)
      as (_ & _ & _ & Hd).
    split; [|split; [|split]].
    + apply Hs. exists CsvError. reflexivity.
    + apply Hi. exists CsvError. reflexivity.
    + apply Hu. exists CsvError. reflexivity.
    + apply Hd. exists CsvError. reflexivity.
  - destruct (Hcase read_only_disk csv_store unused (VInt 1) bo two_clients
                eq_refl eq_refl eq_refl eq_refl) as (_ & Hi & _ & _).
    destruct (Hcase read_only_disk csv_store unused (VInt 1) ana two_clients
                eq_refl eq_refl eq_refl eq_refl) as (_ & _ & Hu & _).
    destruct (Hcase read_only_disk csv_store unused (VInt 2) ana two_clients
                eq_refl eq_refl eq_refl eq_refl) as (_ & _ & _ & Hd).
    split; [|split].
    + apply Hi. exists OSError. vm_compute. reflexivity.
    + apply Hu. exists OSError. vm_compute. reflexivity.
    + apply Hd. exists OSError. vm_compute. reflexivity.
  - destruct (Hcase full_disk csv_store unused (VInt 1) bo two_clients
                eq_refl eq_refl eq_refl eq_refl) as (_ & Hi & _ & _).
    apply Hi. exists OSError. vm_compute. reflexivity.
  - destruct (Hcase quiet remote_store (Raises BackendError) (VInt 1) ana ∅
                eq_refl eq_refl eq_refl eq_refl) as (Hs & Hi & Hu & Hd).
    split; [|split; [|split]].
    + apply Hs. exists BackendError. reflexivity.
    + apply Hi. exists BackendError. reflexivity.
    + apply Hu. exists BackendError. reflexivity.
    + apply Hd. exists BackendError. reflexivity.
Defined.

(** Claim C7 as stated fails: on a console that cannot encode the emoji of
    the messages, the [print] of the handler raises, and the exception
    leaves each of the four operations; so on a malformed file in local
    mode, so on a backend error in remote mode. *)
Lemma exception_escapes_handler :
  (fst (Io.select ascii_console csv_store unused "clientes" None bad_clients)
   = Raises ValueError
   ∧ fst (Io.insert ascii_console csv_store unused "clientes" ana bad_clients)
     = Raises ValueError
   ∧ fst (Io.update ascii_console csv_store unused "clientes" (VInt 1) ana bad_clients)
     = Raises ValueError
   ∧ fst (Io.delete ascii_console csv_store unused "clientes" (VInt 1) bad_clients)
     = Raises ValueError)
  ∧ (fst (Io.select ascii_console remote_store (Raises BackendError) "clientes" None ∅)
     = Raises ValueError
     ∧ fst (Io.insert ascii_console remote_store (Raises BackendError) "clientes" ana ∅)
       = Raises ValueError).
Proof. vm_compute. repeat split; reflexivity. Qed.

Lemma run_self (calls : list (call * reply)) (self : Database) (fs : gmap string file) :
  fst (run calls (self, fs)) = self.
Proof.
  unfold run. revert fs. induction calls as [|[c r] calls IH]; intros fs; simpl.
  - reflexivity.
  - destruct c; apply IH.
Qed.

Lemma connect_flags (env : environment) (self : Database) :
  xorb (connected (_connect env self)) (csv_mode (_connect env self)) = true.
Proof.
  unfold _connect.
  destruct (is_set (SUPABASE_URL env) && is_set (SUPABASE_KEY env)); [|reflexivity].
  destruct (create_client env); [|reflexivity].
  destruct (probe env); reflexivity.
Qed.

(** Claim C9: on every constructed store, and after any sequence of calls
    on it, exactly one of [connected] and [csv_mode] holds, so
    [get_connection_status] answers ["CSV Local"] or ["Supabase"]. *)
Theorem flags_exclusive (env : environment) (self : Database)
    (calls : list (call * reply)) (fs : gmap string file) :
  __init__ env = Returns self →
  let self' := fst (run calls (self, fs)) in
  xorb (connected self') (csv_mode self') = true
  ∧ (get_connection_status self' = "CSV Local" ∨ get_connection_status self' = "Supabase").
Proof.
  intros Hinit self'. subst self'. rewrite run_self.
  unfold __init__ in Hinit.
  destruct (if dir_exists env then Returns tt else makedirs env); [|discriminate].
  injection Hinit as <-.
  pose proof (connect_flags env
    {| supabase := false; connected := false; csv_mode := false; csv_dir := "data_backup" |}) as Hx.
  split; [exact Hx|]. unfold get_connection_status.
  destruct (csv_mode _); [left; reflexivity|].
  destruct (connected _); [right; reflexivity | discriminate].
Qed.

Lemma flags_exclusive_witness :
  let self' := fst (run [(CallInsert "clientes" ana, unused);
                         (CallDelete "clientes" (VInt 1), unused);
                         (CallStatus, unused)] (csv_store, ∅)) in
  xorb (connected self') (csv_mode self') = true
  ∧ (get_connection_status self' = "CSV Local" ∨ get_connection_status self' = "Supabase").
Proof.
  apply (flags_exclusive offline_env csv_store). reflexivity.
Defined.

(** Claim C8, as amended: when [data_backup] exists or can be created and
    the two messages of the fallback can be printed, the constructor
    returns a store, whatever the credentials and the backend; the status
    of that store names the mode it is in; and with a credential missing
    the mode is the local one. *)
Theorem init_succeeds (w : world) (env : environment) :
  dir_exists env = true ∨ makedirs env = Returns tt →
  print w MsgNoConnection = Returns tt →
  print w MsgUsingCsv = Returns tt →
  ∃ self, Io.__init__ w env = Returns self
    ∧ (csv_mode self = true ∧ connected self = false
         ∧ get_connection_status self = "CSV Local"
       ∨ csv_mode self = false ∧ connected self = true
         ∧ get_connection_status self = "Supabase")
    ∧ (is_set (SUPABASE_URL env) && is_set (SUPABASE_KEY env) = false →
       csv_mode self = true ∧ get_connection_status self = "CSV Local").
Proof.
  intros Hdir Hp1 Hp2. unfold Io.__init__.
  assert (Hmk : (if dir_exists env then Returns tt else makedirs env) = Returns tt).
  { destruct Hdir as [-> | Hm]; [reflexivity|]. rewrite Hm. destruct (dir_exists env); reflexivity. }
  rewrite Hmk. unfold Io._connect, Io.handler, get_connection_status. rewrite Hp1, Hp2.
  destruct (is_set (SUPABASE_URL env) && is_set (SUPABASE_KEY env)).
  - destruct (create_client env).
    + destruct (probe env).
      * destruct (print w MsgConnected); eexists; (split; [reflexivity|]);
          (split; [|discriminate]); [right | left]; repeat split; reflexivity.
      * eexists. split; [reflexivity|]. split; [|discriminate]. left. repeat split; reflexivity.
    + eexists. split; [reflexivity|]. split; [|discriminate]. left. repeat split; reflexivity.
  - eexists. split; [reflexivity|].
    split; [left; repeat split; reflexivity | intros _; split; reflexivity].
Qed.

Lemma init_succeeds_witness :
  ∃ self, Io.__init__ quiet offline_env = Returns self
    ∧ (csv_mode self = true ∧ connected self = false
         ∧ get_connection_status self = "CSV Local"
       ∨ csv_mode self = false ∧ connected self = true
         ∧ get_connection_status self = "Supabase")
    ∧ (is_set (SUPABASE_URL offline_env) && is_set (SUPABASE_KEY offline_env) = false →
       csv_mode self = true ∧ get_connection_status self = "CSV Local").
Proof. apply (init_succeeds quiet offline_env); [left|..]; reflexivity. Defined.

(** Claim C8 as stated fails.  Without credentials and with a
    [data_backup] that is missing and cannot be created, [os.makedirs]
    raises outside any [try]; and with [data_backup] in place but a console
    that cannot encode the emoji of the messages, the first [print] of the
    handler of [_connect] raises.  Either way the constructor raises. *)
Lemma init_raises :
  is_set (SUPABASE_URL read_only_env) = false
  ∧ Io.__init__ quiet read_only_env = Raises OSError
  ∧ dir_exists offline_env = true
  ∧ Io.__init__ ascii_console offline_env = Raises ValueError.
Proof. repeat split; reflexivity. Qed.

(** ** [update] *)

Section Update.
Variable self : Database.
Variable tabla : string.
Hypothesis local_mode : csv_mode self = true.
Implicit Types (fs : gmap string file) (d : dict) (K : list key) (recs : list dict).

Lemma update_first_no_match ident datos recs :
  Forall (fun r => has_id ident r = false) recs → update_first ident datos recs = recs.
Proof.
  induction 1 as [|r recs Hr _ IH]; simpl; [reflexivity|].
  unfold has_id in Hr. rewrite Hr, IH. reflexivity.
Qed.

Lemma update_first_split ident datos pre r post :
  Forall (fun r => has_id ident r = false) pre → has_id ident r = true →
  update_first ident datos (pre ++ r :: post) = pre ++ dict_update r datos :: post.
Proof.
  intros Hpre Hr. induction Hpre as [|r0 pre Hr0 _ IH]; simpl.
  - unfold has_id in Hr. rewrite Hr. reflexivity.
  - unfold has_id in Hr0. rewrite Hr0, IH. reflexivity.
Qed.

Lemma update_first_keys ident datos K recs :
  Forall (fun r => dict_keys r = K) recs →
  (∀ k, k ∈ dict_keys datos → k ∈ K) →
  Forall (fun r => dict_keys r = K) (update_first ident datos recs).
Proof.
  intros Hrecs Hsub. induction Hrecs as [|r recs Hr Hrecs IH]; simpl; [constructor|].
  destruct (py_eq _ _).
  - constructor; [|assumption]. rewrite dict_update_keys_sub; [assumption|].
    rewrite Hr. exact Hsub.
  - constructor; assumption.
Qed.

Lemma stringify_get d k :
  dict_get (stringify d) k = (fun v => VStr (to_field v)) <$> dict_get d k.
Proof.
  induction d as [|[k0 v0] d IH]; simpl; [reflexivity|].
  destruct (bool_decide (k0 = k)); [reflexivity | exact IH].
Qed.


Lemma plain_get d k v : plain d → dict_get d k = Some v → VStr (to_field v) = v.
Proof.
  induction 1 as [|[k0 v0] d [s Hs] _ IH]; simpl in *; [discriminate|].
  destruct (bool_decide (k0 = k)); [|exact IH].
  intros [= <-]. subst v0. reflexivity.
Qed.

(** Writing records that all have the columns [K] gives them back in
    their string form. *)
Lemma write_same_keys K d0 rest fs :
  NoDup K → Forall (fun k => is_Some k) K → K ≠ [] →
  Forall (fun r => dict_keys r = K) (d0 :: rest) →
  _write_csv self tabla (d0 :: rest) fs
  = (Returns tt, written self tabla K (d0 :: rest) fs)
  ∧ stored self tabla (written self tabla K (d0 :: rest) fs)
    = List.map stringify (d0 :: rest).
Proof.
  intros Hnd HS Hne Hkeys. pose proof (Forall_inv Hkeys) as Hk0. simpl in Hk0.
  split.
  - rewrite write_fit; [rewrite Hk0; reflexivity|].
    eapply Forall_impl; [exact Hkeys|]. intros d Hd. apply fits_spec.
    intros k. rewrite Hd, Hk0. auto.
  - rewrite stored_written by assumption. apply map_ext_in.
    intros d Hd. rewrite List.Forall_forall in Hkeys. specialize (Hkeys d Hd).
    rewrite <- Hkeys in *. apply normalise_same_keys, Hnd.
Qed.
End Update.

Section UpdateLocal.
Variable self : Database.
Variable tabla : string.
Hypothesis local_mode : csv_mode self = true.
Implicit Types (fs : gmap string file) (d : dict) (K : list key) (recs : list dict).

Lemma uniform_stringify K recs : uniform K recs → List.map stringify recs = recs.
Proof.
  induction 1 as [|d recs [_ Hp] _ IH]; simpl; [reflexivity|].
  rewrite IH, stringify_plain by assumption. reflexivity.
Qed.

(** [update] with a payload whose fields are all columns of the table. *)
Lemma update_local remote i datos fs :
  table_ok self tabla fs = true →
  (∀ r k, In r (stored self tabla fs) → k ∈ dict_keys datos → k ∈ dict_keys r) →
  fst (update self remote tabla i datos fs) = Returns true
  ∧ stored self tabla (snd (update self remote tabla i datos fs))
    = List.map stringify (update_first (py_str i) datos (stored self tabla fs)).
Proof.
  intros Hok Hsub. unfold update, try_except, update_body, bind. rewrite local_mode.
  rewrite read_stored by (apply table_ok_readable, Hok).
  destruct (stored_uniform self tabla fs Hok) as (K & Hnd & HS & Hne & HU).
  destruct (stored self tabla fs) as [|r0 rs] eqn:Hst.
  - simpl. rewrite Hst. split; reflexivity.
  - assert (Hkeys : Forall (fun r => dict_keys r = K) (update_first (py_str i) datos (r0 :: rs))).
    { apply update_first_keys.
      - eapply Forall_impl; [exact HU|]. intros d [Hd _]. exact Hd.
      - intros k Hk. pose proof (Forall_inv HU) as [<- _].
        apply (Hsub r0 k); [left; reflexivity | exact Hk]. }
    assert (HK : K ≠ []) by (apply Hne; discriminate).
    destruct (update_first (py_str i) datos (r0 :: rs)) as [|d0 rest] eqn:Hup.
    { simpl in Hup. destruct (py_eq _ _); discriminate. }
    destruct (write_same_keys self tabla K d0 rest fs Hnd HS HK Hkeys) as [Hw Hs].
    rewrite Hw. simpl. split; [reflexivity | exact Hs].
Qed.
End UpdateLocal.

(** Where [update] merges.  In local mode, on a table state, [update] with
    a payload whose fields are all columns of the table returns [True]; the
    first record with the id gets the given fields, in their string form,
    and keeps its other fields; every other record, a later one with the
    same id too, stays as it is.  (With no record of that id the records
    stay as they are whatever the payload: lemma [update_no_match].) *)
Lemma update_merges (self : Database) (remote : reply) (tabla : string) (i : value)
    (datos : dict) (fs : gmap string file) :
  csv_mode self = true →
  table_ok self tabla fs = true →
  NoDup (dict_keys datos) →
  (∀ r k, In r (stored self tabla fs) → k ∈ dict_keys datos → k ∈ dict_keys r) →
  fst (update self remote tabla i datos fs) = Returns true
  ∧ (Forall (fun r => has_id (py_str i) r = false) (stored self tabla fs) →
     stored self tabla (snd (update self remote tabla i datos fs)) = stored self tabla fs)
  ∧ (∀ pre r post,
       stored self tabla fs = pre ++ r :: post →
       Forall (fun r => has_id (py_str i) r = false) pre →
       has_id (py_str i) r = true →
       ∃ r', stored self tabla (snd (update self remote tabla i datos fs)) = pre ++ r' :: post
             ∧ ∀ k, dict_get r' k = match dict_get datos k with
                                    | Some v => Some (VStr (to_field v))
                                    | None => dict_get r k
                                    end).
Proof.
  intros Hmode Hok Hnd Hsub.
  destruct (update_local self tabla Hmode remote i datos fs Hok Hsub) as [Hret Hst].
  destruct (stored_uniform self tabla fs Hok) as (K & _ & _ & _ & HU).
  split; [exact Hret|]. split.
  - intros Hno. rewrite Hst, update_first_no_match by assumption.
    apply (uniform_stringify K), HU.
  - intros pre r post Hsplit Hpre Hr. exists (stringify (dict_update r datos)).
    rewrite Hst, Hsplit, update_first_split by assumption.
    rewrite Hsplit in HU. unfold uniform in HU.
    apply Forall_app in HU as [HUpre HUpost]. apply Forall_cons in HUpost as [[_ Hpr] HUpost].
    split.
    + rewrite map_app. simpl.
      rewrite (uniform_stringify K pre), (uniform_stringify K post) by assumption.
      reflexivity.
    + intros k. rewrite stringify_get, dict_update_get, dict_get_rev by assumption.
      destruct (dict_get datos k) as [v|]; [reflexivity|].
      destruct (dict_get r k) as [v|] eqn:Hg; [|reflexivity].
      simpl. f_equal. eapply plain_get; eassumption.
Qed.

Lemma update_merges_witness :
  fst (update csv_store unused "clientes" (VInt 2) [(Some "name", VStr "Bea")] two_clients)
  = Returns true
  ∧ ∃ r', stored csv_store "clientes"
            (snd (update csv_store unused "clientes" (VInt 2) [(Some "name", VStr "Bea")]
                    two_clients))
          = [ana] ++ r' :: []
          ∧ ∀ k, dict_get r' k = match dict_get [(Some "name", VStr "Bea")] k with
                                 | Some v => Some (VStr (to_field v))
                                 | None => dict_get bo k
                                 end.
Proof.
  destruct (update_merges csv_store unused "clientes" (VInt 2) [(Some "name", VStr "Bea")]
              two_clients) as (Hret & _ & Hmatch).
  - reflexivity.
  - reflexivity.
  - apply NoDup_singleton.
  - vm_compute. intros r k [<- | [<- | []]] Hk;
      apply list_elem_of_singleton in Hk; subst k; apply list_elem_of_In; simpl; tauto.
  - split; [exact Hret|]. apply (Hmatch [ana] bo []).
    + reflexivity.
    + constructor; [reflexivity | constructor].
    + reflexivity.
Defined.

(** Claim C4, at the input on which the code fails it, console and disk
    being in order.  The table holds the records 1 and 2 with the columns
    [id] and [name]; [update] of record 2 with the new field [city] merges
    nothing: it returns [False] and record 2 is gone from the table, record
    1 being all that [_write_csv] wrote before the writer raised on the
    field that is no column.  The same payload aimed at record 1 is merged:
    [update] returns [True], [city] becomes a column and record 2 is kept. *)
Theorem update_new_field_loses_record :
  stored csv_store "clientes" two_clients = [ana; bo]
  ∧ fst (Io.update quiet csv_store unused "clientes" (VInt 2) [(Some "city", VStr "Z")]
           two_clients) = Returns false
  ∧ stored csv_store "clientes"
      (snd (Io.update quiet csv_store unused "clientes" (VInt 2) [(Some "city", VStr "Z")]
              two_clients))
    = [ana]
  ∧ fst (Io.update quiet csv_store unused "clientes" (VInt 1) [(Some "city", VStr "Z")]
           two_clients) = Returns true
  ∧ stored csv_store "clientes"
      (snd (Io.update quiet csv_store unused "clientes" (VInt 1) [(Some "city", VStr "Z")]
              two_clients))
    = [[(Some "id", VStr "1"); (Some "name", VStr "Ana"); (Some "city", VStr "Z")];
       [(Some "id", VStr "2"); (Some "name", VStr "Bo"); (Some "city", VStr "")]].
Proof. vm_compute. repeat split; reflexivity. Qed.

(** ** [insert] *)

Section InsertLocal.
Variable self : Database.
Variable tabla : string.
Hypothesis local_mode : csv_mode self = true.
Implicit Types (fs : gmap string file) (d : dict) (K : list key) (recs : list dict).




Lemma fits_self d : fits (dict_keys d) d = true.
Proof. apply fits_spec. auto. Qed.

End InsertLocal.




(** ** Ids under [update] *)

Section UpdateIds.
Variable self : Database.
Variable tabla : string.
Hypothesis local_mode : csv_mode self = true.
Implicit Types (fs : gmap string file) (d : dict) (K : list key) (recs : list dict).

(** The rows that reach the file are those of a prefix of the records,
    of all of them when nothing is raised. *)
Lemma writerows_prefix K recs :
  ∃ n, snd (writerows K recs) = List.map (row_of K) (take n recs)
       ∧ (fst (writerows K recs) = Returns tt → take n recs = recs).
Proof.
  induction recs as [|d recs (n & Hrows & Hall)]; simpl.
  - exists 0%nat. split; reflexivity.
  - unfold dict_to_list. destruct (fits K d).
    + exists (S n). destruct (writerows K recs) as [r rows]. simpl in *.
      split; [rewrite Hrows; reflexivity|]. intros Hr. rewrite Hall by assumption. reflexivity.
    + exists 0%nat. split; [reflexivity | discriminate].
Qed.





End UpdateIds.




(** ** Table states are closed under the operations *)

Section Invariant.
Variable self : Database.
Variable tabla : string.
Implicit Types (fs : gmap string file) (d : dict) (K : list key) (recs : list dict).

(** Whatever is written to whatever table, and whether or not the writer
    raises half-way, the table [tabla] stays a table state. *)
Lemma write_table_ok (self' : Database) (tabla' : string) recs fs :
  table_ok self tabla fs = true →
  table_ok self tabla (snd (_write_csv self' tabla' recs fs)) = true.
Proof.
  intros Hok. destruct recs as [|d0 rest]; [exact Hok|]. unfold _write_csv.
  destruct (writerows_prefix (dict_keys d0) (d0 :: rest)) as (n & Hrows & _).
  destruct (writerows (dict_keys d0) (d0 :: rest)) as [r rows]. simpl in Hrows. subst rows.
  cbn [snd]. unfold table_ok in *. rewrite lookup_insert.
  destruct (decide (_get_csv_path self' tabla' = _get_csv_path self tabla)); [|exact Hok].
  unfold rectangular. apply forallb_forall. intros row Hrow.
  apply in_map_iff in Hrow as [d [<- _]].
  unfold row_of. rewrite !length_map. apply Nat.eqb_refl.
Qed.

Lemma read_keeps_fs (self' : Database) (tabla' : string) fs :
  snd (_read_csv self' tabla' fs) = fs.
Proof.
  unfold _read_csv. destruct (fs !! _get_csv_path self' tabla') as [[|rows]|]; reflexivity.
Qed.

Lemma select_keeps_fs (self' : Database) remote tabla' filtros fs :
  snd (select self' remote tabla' filtros fs) = fs.
Proof.
  unfold select, try_except, select_body, bind, lift.
  destruct (csv_mode self'); [|destruct remote; reflexivity].
  pose proof (read_keeps_fs self' tabla' fs) as Hr.
  destruct (_read_csv self' tabla' fs) as [[regs|e] fs']; simpl in Hr; subst fs';
    [destruct (truthy filtros)|]; reflexivity.
Qed.

Lemma insert_table_ok (self' : Database) remote tabla' datos fs :
  table_ok self tabla fs = true →
  table_ok self tabla (snd (insert self' remote tabla' datos fs)) = true.
Proof.
  intros Hok. unfold insert, try_except, insert_body, bind, lift, ret.
  destruct (csv_mode self'); [|destruct remote; exact Hok].
  pose proof (read_keeps_fs self' tabla' fs) as Hr.
  destruct (_read_csv self' tabla' fs) as [[regs|e] fs']; simpl in Hr; subst fs';
    [|exact Hok].
  destruct (negb (dict_has datos id_key)); [destruct (next_id regs) as [v|e]; [|exact Hok]|].
  - pose proof (write_table_ok self' tabla' (regs ++ [dict_set datos id_key v]) fs Hok) as Hw.
    destruct (_write_csv self' tabla' _ fs) as [[u|e] fs']; exact Hw.
  - pose proof (write_table_ok self' tabla' (regs ++ [datos]) fs Hok) as Hw.
    destruct (_write_csv self' tabla' _ fs) as [[u|e] fs']; exact Hw.
Qed.

Lemma update_table_ok (self' : Database) remote tabla' i datos fs :
  table_ok self tabla fs = true →
  table_ok self tabla (snd (update self' remote tabla' i datos fs)) = true.
Proof.
  intros Hok. unfold update, try_except, update_body, bind, lift, ret.
  destruct (csv_mode self'); [|destruct remote; exact Hok].
  pose proof (read_keeps_fs self' tabla' fs) as Hr.
  destruct (_read_csv self' tabla' fs) as [[regs|e] fs']; simpl in Hr; subst fs';
    [|exact Hok].
  pose proof (write_table_ok self' tabla' (update_first (py_str i) datos regs) fs Hok) as Hw.
  destruct (_write_csv self' tabla' _ fs) as [[u|e] fs']; exact Hw.
Qed.

Lemma delete_table_ok (self' : Database) remote tabla' i fs :
  table_ok self tabla fs = true →
  table_ok self tabla (snd (delete self' remote tabla' i fs)) = true.
Proof.
  intros Hok. unfold delete, try_except, delete_body, bind, lift, ret.
  destruct (csv_mode self'); [|destruct remote; exact Hok].
  pose proof (read_keeps_fs self' tabla' fs) as Hr.
  destruct (_read_csv self' tabla' fs) as [[regs|e] fs']; simpl in Hr; subst fs';
    [|exact Hok].
  pose proof (write_table_ok self' tabla'
                (List.filter (fun r => negb (py_eq (py_get r id_key VNone) (VStr (py_str i))))
                   regs) fs Hok) as Hw.
  destruct (_write_csv self' tabla' _ fs) as [[u|e] fs']; exact Hw.
Qed.

(** Starting from a table state, in particular from an empty directory,
    every sequence of calls leads to a table state. *)
Lemma run_table_ok (self' : Database) calls fs :
  table_ok self tabla fs = true →
  table_ok self tabla (snd (run calls (self', fs))) = true.
Proof.
  unfold run. revert fs. induction calls as [|[c remote] calls IH]; intros fs Hok; [exact Hok|].
  simpl. destruct c; apply IH.
  - rewrite select_keeps_fs. exact Hok.
  - apply insert_table_ok, Hok.
  - apply update_table_ok, Hok.
  - apply delete_table_ok, Hok.
  - exact Hok.
Qed.

Lemma empty_table_ok : table_ok self tabla ∅ = true.
Proof. reflexivity. Qed.
End Invariant.

(** ** The examples of the specification, run on the model *)

(** Filter exactness: of [{id:'1', city:'X'}] and [{id:'2', city:'Y'}],
    [select(table, {city:'X'})] returns the first. *)
Example filter_exactness :
  fst (select csv_store unused "clientes" (Some [(Some "city", VStr "X")])
         {[ "data_backup/clientes.csv" := Csv [["id"; "city"]; ["1"; "X"]; ["2"; "Y"]] ]})
  = Returns [[(Some "id", VStr "1"); (Some "city", VStr "X")]].
Proof. vm_compute. reflexivity. Qed.

(** Empty-table read: no file, no rows, no error. *)
Example empty_table_read :
  fst (select csv_store unused "clientes" None ∅) = Returns [].
Proof. reflexivity. Qed.

(** Mode determinism: credentials and a backend that answers give the
    remote mode; no credentials give the local one. *)
Example mode_determinism :
  (get_connection_status <$>
     match __init__ {| SUPABASE_URL := Some "https://db.example"; SUPABASE_KEY := Some "k";
                       dir_exists := true; makedirs := Returns tt;
                       create_client := Returns tt; probe := Returns [] |} with
     | Returns self => Some self
     | Raises _ => None
     end) = Some "Supabase"
  ∧ __init__ offline_env = Returns csv_store.
Proof. split; reflexivity. Qed.

(** A ragged file: the short row reads [None] for the missing field, the
    long row keeps the extra fields under the key [None]. *)
Example ragged_rows :
  DictReader [["id"; "name"]; ["1"]; ["2"; "Bo"; "x"; "y"]]
  = [[(Some "id", VStr "1"); (Some "name", VNone)];
     [(Some "id", VStr "2"); (Some "name", VStr "Bo"); (None, VList ["x"; "y"])]].
Proof. reflexivity. Qed.

(** ** [str] and [int] on ids *)

Section StrInt.

Lemma digit_of_pretty_N_char (d : N) :
  (d < 10)%N → digit_of (pretty_N_char d) = Some (Z.of_N d).
Proof.
  intros Hd.
  assert (Hc : (d = 0 ∨ d = 1 ∨ d = 2 ∨ d = 3 ∨ d = 4 ∨ d = 5 ∨ d = 6 ∨ d = 7 ∨ d = 8 ∨ d = 9)%N)
    by lia.
  destruct Hc as [->|[->|[->|[->|[->|[->|[->|[->|[->| ->]]]]]]]]]; reflexivity.
Qed.

Lemma pretty_N_char_plain (d : N) :
  is_space (pretty_N_char d) = false
  ∧ pretty_N_char d ≠ "-"%char ∧ pretty_N_char d ≠ "+"%char.
Proof.
  unfold pretty_N_char.
  destruct d as [|[[[[|[]|]|[[]|[]|]|]|[[[]|[]|]|[[]|[]|]|]|]|[[[[]|[]|]|[[]|[]|]|]|[[[]|[]|]|[[]|[]|]|]|]|]];
    (split; [reflexivity | split; discriminate]).
Qed.

(** The digits of [str(x)] parse back to [x]. *)
Lemma parse_pretty_N_go (x : N) (s : string) (b : bool) :
  (0 < x)%N →
  parse_digits 0 b (list_ascii_of_string (pretty_N_go x s))
  = parse_digits (Z.of_N x) true (list_ascii_of_string s).
Proof.
  revert s b. induction (N.lt_wf_0 x) as [x _ IH]. intros s b Hx.
  rewrite pretty_N_go_step by assumption.
  assert (Hmod : (x `mod` 10 < 10)%N) by (apply N.mod_lt; discriminate).
  assert (Hdiv : x = (10 * (x `div` 10) + x `mod` 10)%N) by (apply N.div_mod; discriminate).
  assert (HdivZ : Z.of_N x = 10 * Z.of_N (x `div` 10) + Z.of_N (x `mod` 10)).
  { rewrite Hdiv at 1. rewrite N2Z.inj_add, N2Z.inj_mul. reflexivity. }
  destruct (decide (0 < x `div` 10)%N) as [Hpos|Hzero].
  - rewrite IH; [|apply N.div_lt; [assumption | reflexivity] | assumption].
    simpl. rewrite digit_of_pretty_N_char by assumption. rewrite HdivZ. reflexivity.
  - assert (H0 : (x `div` 10 = 0)%N)
      by (destruct (x `div` 10)%N; [reflexivity | exfalso; apply Hzero; reflexivity]). rewrite H0 in HdivZ. rewrite H0, pretty_N_go_0.
    simpl. rewrite digit_of_pretty_N_char by assumption. rewrite HdivZ. reflexivity.
Qed.

Lemma pretty_N_go_chars (x : N) (s : string) :
  Forall (fun c => is_space c = false) (list_ascii_of_string s) →
  Forall (fun c => is_space c = false) (list_ascii_of_string (pretty_N_go x s)).
Proof.
  revert s. induction (N.lt_wf_0 x) as [x _ IH]. intros s Hs.
  destruct (decide (0 < x)%N) as [Hx|Hx].
  - rewrite pretty_N_go_step by assumption. apply IH.
    + apply N.div_lt; [assumption | reflexivity].
    + simpl. constructor; [apply pretty_N_char_plain | assumption].
  - assert (H0 : x = 0%N) by (destruct x; [reflexivity | exfalso; apply Hx; reflexivity]).
    subst x. rewrite pretty_N_go_0. assumption.
Qed.

Lemma pretty_N_go_head (x : N) (s : string) :
  (0 < x)%N →
  ∃ c l, list_ascii_of_string (pretty_N_go x s) = c :: l
         ∧ c ≠ "-"%char ∧ c ≠ "+"%char.
Proof.
  revert s. induction (N.lt_wf_0 x) as [x _ IH]. intros s Hx.
  rewrite pretty_N_go_step by assumption.
  destruct (decide (0 < x `div` 10)%N) as [Hpos|Hzero].
  - apply IH; [apply N.div_lt; [assumption | reflexivity] | assumption].
  - assert (H0 : (x `div` 10 = 0)%N)
      by (destruct (x `div` 10)%N; [reflexivity | exfalso; apply Hzero; reflexivity]). rewrite H0, pretty_N_go_0. simpl.
    eexists _, _. split; [reflexivity | apply pretty_N_char_plain].
Qed.

Lemma lstrip_head (c : ascii) (l : list ascii) : is_space c = false → lstrip (c :: l) = c :: l.
Proof. intros H. simpl. rewrite H. reflexivity. Qed.

Lemma strip_no_space (l : list ascii) :
  Forall (fun c => is_space c = false) l → strip l = l.
Proof.
  intros Hl. unfold strip.
  assert (Hls : ∀ l', Forall (fun c => is_space c = false) l' → lstrip l' = l').
  { intros l' Hl'. destruct Hl' as [|c l' Hc _]; [reflexivity | apply lstrip_head, Hc]. }
  rewrite (Hls l Hl). rewrite Hls; [apply rev_involutive|].
  apply List.Forall_forall. intros c Hc. apply in_rev in Hc.
  rewrite List.Forall_forall in Hl. apply Hl, Hc.
Qed.

Lemma int_of_string_pretty_pos (p : positive) :
  int_of_string (pretty (Npos p)) = Some (Zpos p)
  ∧ Forall (fun c => is_space c = false) (list_ascii_of_string (pretty (Npos p))).
Proof.
  assert (Hp : (0 < Npos p)%N) by reflexivity.
  assert (Hpretty : pretty (Npos p) = pretty_N_go (Npos p) "") by reflexivity.
  assert (Hchars : Forall (fun c => is_space c = false)
                     (list_ascii_of_string (pretty (Npos p)))).
  { rewrite Hpretty. apply pretty_N_go_chars. constructor. }
  split; [|exact Hchars].
  unfold int_of_string. rewrite strip_no_space by assumption.
  destruct (pretty_N_go_head (Npos p) "" Hp) as (c & l & Hcl & Hm & Hpl).
  pose proof (parse_pretty_N_go (Npos p) "" false Hp) as Hparse.
  rewrite Hpretty, Hcl in *.
  rewrite !bool_decide_eq_false_2 by assumption. rewrite Hparse. reflexivity.
Qed.

(** [int(str(n)) == n] *)
Lemma int_of_string_pretty (n : Z) : int_of_string (pretty n) = Some n.
Proof.
  destruct n as [|p|p].
  - reflexivity.
  - apply (int_of_string_pretty_pos p).
  - destruct (int_of_string_pretty_pos p) as [Hint Hchars].
    change (pretty (Zneg p)) with (String "-" (pretty (Npos p))).
    unfold int_of_string. simpl list_ascii_of_string.
    rewrite strip_no_space by (constructor; [reflexivity | assumption]).
    rewrite bool_decide_eq_true_2 by reflexivity.
    unfold int_of_string in Hint. rewrite strip_no_space in Hint by assumption.
    destruct (list_ascii_of_string (pretty (Npos p))) as [|c l] eqn:Hcl; [discriminate|].
    destruct (pretty_N_go_head (Npos p) "" eq_refl) as (c' & l' & Hcl' & Hm & Hpl).
    change (pretty_N_go (Npos p) "") with (pretty (Npos p)) in Hcl'.
    rewrite Hcl in Hcl'. injection Hcl' as <- <-.
    rewrite !bool_decide_eq_false_2 in Hint by assumption.
    rewrite Hint. reflexivity.
Qed.
End StrInt.

(** ** More on writing and on [insert] *)

Section InsertMore.
Variable self : Database.
Variable tabla : string.
Hypothesis local_mode : csv_mode self = true.
Implicit Types (fs : gmap string file) (d : dict) (K : list key) (recs : list dict).

Lemma writerows_app_fit K recs l :
  Forall (fun d => fits K d = true) recs →
  writerows K (recs ++ l)
  = (fst (writerows K l), List.map (row_of K) recs ++ snd (writerows K l)).
Proof.
  induction 1 as [|d recs Hd _ IH]; simpl.
  - destruct (writerows K l); reflexivity.
  - unfold dict_to_list. rewrite Hd, IH. reflexivity.
Qed.

Lemma writerows_unfit K d l : fits K d = false → writerows K (d :: l) = (Raises ValueError, []).
Proof. intros H. simpl. unfold dict_to_list. rewrite H. reflexivity. Qed.

Lemma map_outcome_returns {A B : Type} (f : A → outcome B) (l : list A) (bs : list B) :
  map_outcome f l = Returns bs → Forall2 (fun a b => f a = Returns b) l bs.
Proof.
  revert bs. induction l as [|a l IH]; simpl; intros bs H.
  - injection H as <-. constructor.
  - destruct (f a) as [b|e] eqn:Hfa; [|discriminate].
    destruct (map_outcome f l) as [bs'|e]; [|discriminate].
    injection H as <-. constructor; [assumption | apply IH; reflexivity].
Qed.

Lemma fold_max_ge (l : list Z) (x : Z) : x ≤ fold_left Z.max l x.
Proof.
  revert x. induction l as [|y l IH]; intros x; simpl; [lia|].
  specialize (IH (Z.max x y)). lia.
Qed.

Lemma fold_max_In (l : list Z) (x k : Z) : In k l → k ≤ fold_left Z.max l x.
Proof.
  revert x. induction l as [|y l IH]; intros x; simpl; [intros []|].
  intros [->|Hin]; [|apply IH, Hin].
  pose proof (fold_max_ge l (Z.max x k)). lia.
Qed.

Lemma py_max_ge (l : list Z) (d k : Z) : In k l → k ≤ py_max l d.
Proof.
  destruct l as [|x l]; [intros []|]. simpl.
  intros [->|Hin]; [apply fold_max_ge | apply fold_max_In, Hin].
Qed.

(** The id [insert] computes is the id of no stored record. *)
Lemma next_id_fresh recs v r :
  next_id recs = Returns v → In r recs → dict_get r id_key ≠ Some v.
Proof.
  unfold next_id. intros Hnext Hr Hget.
  destruct (map_outcome _ recs) as [ks|e] eqn:Hmap; [|discriminate].
  injection Hnext as <-.
  apply map_outcome_returns in Hmap.
  assert (Hk : ∃ k, In k ks ∧ py_int (py_get r id_key (VInt 0)) = Returns k).
  { clear Hget. induction Hmap as [|a b l bs Hab _ IH]; [destruct Hr|].
    destruct Hr as [->|Hr].
    - exists b. split; [left; reflexivity | assumption].
    - destruct (IH Hr) as (k & Hk & Hpk). exists k. split; [right|]; assumption. }
  destruct Hk as (k & Hk & Hpk). apply (py_max_ge ks 0) in Hk.
  unfold py_get in Hpk. rewrite Hget in Hpk. simpl in Hpk.
  rewrite int_of_string_pretty in Hpk. injection Hpk as Hpk. lia.
Qed.

Lemma with_id_has_id recs datos d' : with_id recs datos = Returns d' → id_key ∈ dict_keys d'.
Proof.
  unfold with_id, dict_has. destruct (bool_decide_reflect (id_key ∈ dict_keys datos)) as [Hin|Hn].
  - intros [= <-]. exact Hin.
  - destruct (next_id recs) as [v|e]; [|discriminate]. intros [= <-].
    apply dict_keys_set_elem. left. reflexivity.
Qed.

Lemma write_append_one r0 rs d' fs :
  Forall (fun d => fits (dict_keys r0) d = true) (r0 :: rs) →
  _write_csv self tabla ((r0 :: rs) ++ [d']) fs
  = if fits (dict_keys r0) d'
    then (Returns tt, written self tabla (dict_keys r0) ((r0 :: rs) ++ [d']) fs)
    else (Raises ValueError, written self tabla (dict_keys r0) (r0 :: rs) fs).
Proof.
  intros Hfit. change ((r0 :: rs) ++ [d']) with (r0 :: (rs ++ [d'])) at 1.
  unfold _write_csv. change (r0 :: (rs ++ [d'])) with ((r0 :: rs) ++ [d']).
  rewrite (writerows_app_fit _ (r0 :: rs) [d'] Hfit).
  cbn [writerows]. unfold dict_to_list, written.
  destruct (fits (dict_keys r0) d'); cbn [fst snd].
  - rewrite map_app. reflexivity.
  - rewrite app_nil_r. reflexivity.
Qed.

(** [insert] on a table that holds a record: the new record is appended
    when its fields are columns; otherwise the stored records are written
    back and [False] is returned. *)
Lemma insert_nonempty remote datos fs r0 rs :
  table_ok self tabla fs = true →
  stored self tabla fs = r0 :: rs →
  insert self remote tabla datos fs
  = match with_id (r0 :: rs) datos with
    | Raises _ => (Returns false, fs)
    | Returns d' =>
        if fits (dict_keys r0) d'
        then (Returns true, written self tabla (dict_keys r0) ((r0 :: rs) ++ [d']) fs)
        else (Returns false, written self tabla (dict_keys r0) (r0 :: rs) fs)
    end.
Proof.
  intros Hok Hst. destruct (stored_uniform self tabla fs Hok) as (K & _ & _ & _ & HU).
  rewrite Hst in HU. pose proof (Forall_inv HU) as [Hk0 _].
  pose proof (uniform_fits K _ HU) as Hfit. rewrite <- Hk0 in Hfit.
  unfold insert, try_except, insert_body, bind. rewrite local_mode.
  rewrite read_stored by (apply table_ok_readable, Hok). rewrite Hst.
  unfold with_id. destruct (dict_has datos id_key); cbn [negb].
  - unfold ret. rewrite (write_append_one r0 rs datos fs Hfit).
    destruct (fits (dict_keys r0) datos); reflexivity.
  - unfold lift. destruct (next_id (r0 :: rs)) as [v|e]; [|reflexivity].
    unfold ret. rewrite (write_append_one r0 rs _ fs Hfit).
    destruct (fits (dict_keys r0) (dict_set datos id_key v)); reflexivity.
Qed.

(** [insert] on a table that holds no record never fails. *)
Lemma insert_empty remote datos fs :
  fs !! _get_csv_path self tabla ≠ Some Malformed →
  stored self tabla fs = [] →
  ∃ d', with_id [] datos = Returns d'
        ∧ insert self remote tabla datos fs
          = (Returns true, written self tabla (dict_keys d') [d'] fs).
Proof.
  intros Hr Hst. unfold insert, try_except, insert_body, bind. rewrite local_mode.
  rewrite read_stored by assumption. rewrite Hst. unfold with_id.
  destruct (dict_has datos id_key); cbn [negb].
  - exists datos. split; [reflexivity|].
    unfold ret. change ([] ++ [datos]) with [datos].
    rewrite write_fit by (constructor; [apply fits_self | constructor]).
    reflexivity.
  - destruct (next_id []) as [v|e] eqn:Hn; [|discriminate].
    eexists. split; [reflexivity|]. unfold lift, ret.
    change ([] ++ [dict_set datos id_key v]) with [dict_set datos id_key v].
    rewrite write_fit by (constructor; [apply fits_self | constructor]).
    reflexivity.
Qed.
End InsertMore.

Section InsertProps.
Variable self : Database.
Variable tabla : string.
Hypothesis local_mode : csv_mode self = true.
Implicit Types (fs : gmap string file) (d : dict) (K : list key) (recs : list dict).

(** What is stored after the records of a table state, and maybe one more
    record, are written under the table's columns. *)
Lemma stored_rewritten fs r0 rs (extra : list dict) :
  table_ok self tabla fs = true →
  stored self tabla fs = r0 :: rs →
  stored self tabla (written self tabla (dict_keys r0) ((r0 :: rs) ++ extra) fs)
  = (r0 :: rs) ++ List.map (normalise (dict_keys r0)) extra.
Proof.
  intros Hok Hst. destruct (stored_uniform self tabla fs Hok) as (K & Hnd & HS & Hne & HU).
  rewrite Hst in HU, Hne. pose proof (Forall_inv HU) as [Hk0 _]. subst K.
  rewrite stored_written by (try apply Hne; auto; discriminate).
  rewrite map_app. f_equal. apply uniform_normalise; assumption.
Qed.

Lemma columns_NoDup fs : table_ok self tabla fs = true → NoDup (columns self tabla fs).
Proof.
  intros Hok. unfold columns.
  destruct (stored_uniform self tabla fs Hok) as (K & Hnd & _ & _ & HU).
  destruct (stored self tabla fs) as [|r0 rs]; [apply NoDup_nil_2|].
  pose proof (Forall_inv HU) as [-> _]. exact Hnd.
Qed.
End InsertProps.

(** Property X1: in local mode, on a table state that holds a record, an
    [insert] that returns [True] appends one record and leaves the stored
    ones as they are: the new record has the table's columns, with the
    string form of each given value, the computed id when none was given,
    and [''] for a column the given record lacks; every field of the given
    record is a column. *)
Theorem insert_appends (self : Database) (remote : reply) (tabla : string) (datos : dict)
    (fs : gmap string file) :
  csv_mode self = true →
  table_ok self tabla fs = true →
  stored self tabla fs ≠ [] →
  fst (insert self remote tabla datos fs) = Returns true →
  ∃ d', with_id (stored self tabla fs) datos = Returns d'
        ∧ (∀ k, k ∈ dict_keys d' → k ∈ columns self tabla fs)
        ∧ stored self tabla (snd (insert self remote tabla datos fs))
          = stored self tabla fs ++ [normalise (columns self tabla fs) d'].
Proof.
  intros Hmode Hok Hne. unfold columns.
  destruct (stored self tabla fs) as [|r0 rs] eqn:Hst; [congruence|].
  rewrite (insert_nonempty self tabla Hmode remote datos fs r0 rs Hok Hst).
  destruct (with_id (r0 :: rs) datos) as [d'|e]; [|discriminate].
  destruct (fits (dict_keys r0) d') eqn:Hfit; [|discriminate].
  intros _. exists d'. split; [reflexivity|]. split; [apply fits_spec, Hfit|].
  cbn [snd]. apply (stored_rewritten self tabla fs r0 rs [d'] Hok Hst).
Qed.

Lemma insert_appends_witness :
  ∃ d', with_id (stored csv_store "clientes" two_clients) [(Some "name", VInt 7)] = Returns d'
        ∧ (∀ k, k ∈ dict_keys d' → k ∈ columns csv_store "clientes" two_clients)
        ∧ stored csv_store "clientes"
            (snd (insert csv_store unused "clientes" [(Some "name", VInt 7)] two_clients))
          = stored csv_store "clientes" two_clients
            ++ [normalise (columns csv_store "clientes" two_clients) d'].
Proof.
  apply (insert_appends csv_store unused "clientes" [(Some "name", VInt 7)] two_clients).
  - reflexivity.
  - reflexivity.
  - vm_compute. discriminate.
  - vm_compute. reflexivity.
Defined.



Section FreshIds.
Variable self : Database.
Variable tabla : string.
Hypothesis local_mode : csv_mode self = true.
Implicit Types (fs : gmap string file) (d : dict) (K : list key) (recs : list dict).


Lemma with_id_fresh recs datos d' :
  dict_has datos id_key = false → with_id recs datos = Returns d' →
  ∃ n, next_id recs = Returns (VStr (py_str (VInt n)))
       ∧ d' = dict_set datos id_key (VStr (py_str (VInt n))).
Proof.
  unfold with_id. intros ->. unfold next_id.
  destruct (map_outcome _ recs) as [ks|e]; [|discriminate].
  intros [= <-]. eexists. split; reflexivity.
Qed.

(** The id of the record read back after [insert] wrote it. *)
Lemma normalise_new_id K datos v :
  NoDup K → id_key ∈ K →
  dict_get (normalise K (dict_set datos id_key (VStr v))) id_key = Some (VStr v).
Proof.
  intros Hnd Hin. rewrite normalise_get by assumption.
  rewrite bool_decide_eq_true_2 by assumption.
  unfold py_get. rewrite dict_get_set, bool_decide_eq_true_2 by reflexivity. reflexivity.
Qed.

Lemma stored_one_at_most K d fs : (length (stored self tabla (written self tabla K [d] fs)) ≤ 1)%nat.
Proof.
  unfold written. rewrite stored_insert. simpl.
  destruct (negb (is_blank (row_of K d))); simpl; lia.
Qed.
End FreshIds.

(** Property X3: in local mode, on a table state whose records have
    pairwise distinct ids, an [insert] of a record without ['id'] that
    returns [True] leaves the ids pairwise distinct; on a table that holds
    a record, the ids afterwards are the old ones followed by the new one,
    [str(n)] for the computed number [n]. *)
Theorem insert_keeps_ids_distinct (self : Database) (remote : reply) (tabla : string)
    (datos : dict) (fs : gmap string file) :
  csv_mode self = true →
  table_ok self tabla fs = true →
  dict_has datos id_key = false →
  NoDup (ids self tabla fs) →
  fst (insert self remote tabla datos fs) = Returns true →
  NoDup (ids self tabla (snd (insert self remote tabla datos fs)))
  ∧ ∃ n, next_id (stored self tabla fs) = Returns (VStr (py_str (VInt n)))
         ∧ (stored self tabla fs ≠ [] →
            ids self tabla (snd (insert self remote tabla datos fs))
            = ids self tabla fs ++ [Some (VStr (py_str (VInt n)))]).
Proof.
  intros Hmode Hok Hhas Hnd. unfold ids in *.
  destruct (stored self tabla fs) as [|r0 rs] eqn:Hst.
  - destruct (insert_empty self tabla Hmode remote datos fs
                (table_ok_readable self tabla fs Hok) Hst) as (d' & Hd' & ->).
    intros _. cbn [snd]. split.
    + pose proof (stored_one_at_most self tabla (dict_keys d') d' fs) as Hlen.
      destruct (stored self tabla (written self tabla (dict_keys d') [d'] fs))
        as [|x [|y l]]; simpl in *; [apply NoDup_nil_2 | apply NoDup_singleton | lia].
    + destruct (with_id_fresh [] datos d' Hhas Hd') as (n & Hn & _).
      exists n. split; [exact Hn | congruence].
  - rewrite (insert_nonempty self tabla Hmode remote datos fs r0 rs Hok Hst).
    destruct (with_id (r0 :: rs) datos) as [d'|e] eqn:Hd'; [|discriminate].
    destruct (fits (dict_keys r0) d') eqn:Hfit; [|discriminate].
    intros _. cbn [snd].
    destruct (with_id_fresh _ datos d' Hhas Hd') as (n & Hn & ->).
    rewrite (stored_rewritten self tabla fs r0 rs [_] Hok Hst).
    assert (HK : NoDup (dict_keys r0)).
    { pose proof (columns_NoDup self tabla fs Hok) as H. unfold columns in H.
      rewrite Hst in H. exact H. }
    assert (Hin : id_key ∈ dict_keys r0).
    { apply (proj1 (fits_spec _ _) Hfit). apply dict_keys_set_elem. left. reflexivity. }
    assert (Hids : List.map (fun r => dict_get r id_key)
                     ((r0 :: rs) ++ List.map (normalise (dict_keys r0))
                                      [dict_set datos id_key (VStr (py_str (VInt n)))])
                   = List.map (fun r => dict_get r id_key) (r0 :: rs)
                     ++ [Some (VStr (py_str (VInt n)))]).
    { rewrite map_app. cbn [List.map]. rewrite normalise_new_id by assumption. reflexivity. }
    rewrite Hids. split.
    + apply NoDup_app. split; [exact Hnd|]. split; [|apply NoDup_singleton].
      intros o Ho Ho'. apply list_elem_of_singleton in Ho'. subst o.
      apply list_elem_of_In, in_map_iff in Ho as (r & Hget & Hr).
      exact (next_id_fresh _ _ r Hn Hr Hget).
    + exists n. split; [exact Hn | intros _; reflexivity].
Qed.

Lemma insert_keeps_ids_distinct_witness :
  NoDup (ids csv_store "clientes"
           (snd (insert csv_store unused "clientes" [(Some "name", VStr "Eva")] two_clients)))
  ∧ ∃ n, next_id (stored csv_store "clientes" two_clients) = Returns (VStr (py_str (VInt n)))
         ∧ (stored csv_store "clientes" two_clients ≠ [] →
            ids csv_store "clientes"
              (snd (insert csv_store unused "clientes" [(Some "name", VStr "Eva")] two_clients))
            = ids csv_store "clientes" two_clients ++ [Some (VStr (py_str (VInt n)))]).
Proof.
  apply (insert_keeps_ids_distinct csv_store unused "clientes" [(Some "name", VStr "Eva")]
           two_clients).
  - reflexivity.
  - reflexivity.
  - reflexivity.
  - vm_compute. apply NoDup_cons. split.
    + intros H. apply list_elem_of_singleton in H. discriminate.
    + apply NoDup_singleton.
  - vm_compute. reflexivity.
Defined.



Section UpdateFailure.
Variable self : Database.
Variable tabla : string.
Hypothesis local_mode : csv_mode self = true.
Implicit Types (fs : gmap string file) (d : dict) (K : list key) (recs : list dict).

(** Either no record has the id, or there is a first one that has it. *)
Lemma first_match ident recs :
  Forall (fun r => has_id ident r = false) recs
  ∨ ∃ pre r post, recs = pre ++ r :: post
                  ∧ Forall (fun r => has_id ident r = false) pre
                  ∧ has_id ident r = true.
Proof.
  induction recs as [|r recs IH]; [left; constructor|].
  destruct (has_id ident r) eqn:Hr.
  - right. exists [], r, recs. split; [reflexivity|]. split; [constructor | assumption].
  - destruct IH as [Hno | (pre & r' & post & -> & Hpre & Hr')].
    + left. constructor; assumption.
    + right. exists (r :: pre), r', post. split; [reflexivity|].
      split; [constructor|]; assumption.
Qed.

Lemma update_unfold remote i datos fs :
  fs !! _get_csv_path self tabla ≠ Some Malformed →
  update self remote tabla i datos fs
  = match _write_csv self tabla (update_first (py_str i) datos (stored self tabla fs)) fs with
    | (Returns _, fs') => (Returns true, fs')
    | (Raises _, fs') => (Returns false, fs')
    end.
Proof.
  intros Hr. unfold update, try_except, update_body, bind. rewrite local_mode.
  rewrite read_stored by assumption.
  destruct (_write_csv self tabla _ fs) as [[u|e] fs']; reflexivity.
Qed.
End UpdateFailure.

(** With no record of the id, [update] returns [True] and the records stay
    as they are, whatever the payload. *)
Lemma update_no_match (self : Database) (remote : reply) (tabla : string) (i : value)
    (datos : dict) (fs : gmap string file) :
  csv_mode self = true →
  table_ok self tabla fs = true →
  Forall (fun r => has_id (py_str i) r = false) (stored self tabla fs) →
  fst (update self remote tabla i datos fs) = Returns true
  ∧ stored self tabla (snd (update self remote tabla i datos fs)) = stored self tabla fs.
Proof.
  intros Hmode Hok Hno.
  rewrite (update_unfold self tabla Hmode remote i datos fs (table_ok_readable _ _ _ Hok)).
  rewrite update_first_no_match by assumption.
  destruct (stored_uniform self tabla fs Hok) as (K & Hnd & HS & Hne & HU).
  pose proof (uniform_fits K _ HU) as Hfit.
  destruct (stored self tabla fs) as [|r0 rs] eqn:Hst.
  - cbn. rewrite Hst. split; reflexivity.
  - pose proof (Forall_inv HU) as [Hk0 _]. rewrite <- Hk0 in *.
    rewrite write_fit by assumption. cbn [fst snd]. split; [reflexivity|].
    rewrite stored_written by (try apply Hne; auto; discriminate).
    apply uniform_normalise; assumption.
Qed.

(** When the writer is all that can raise, an [update] that returns
    [False] has cut the table short at the first record with the id. *)
Lemma update_false_cut (self : Database) (remote : reply) (tabla : string)
    (i : value) (datos : dict) (fs : gmap string file) :
  csv_mode self = true →
  table_ok self tabla fs = true →
  fst (update self remote tabla i datos fs) = Returns false →
  ∃ pre r post,
    stored self tabla fs = pre ++ r :: post
    ∧ pre ≠ []
    ∧ Forall (fun r => has_id (py_str i) r = false) pre
    ∧ has_id (py_str i) r = true
    ∧ stored self tabla (snd (update self remote tabla i datos fs)) = pre.
Proof.
  intros Hmode Hok.
  rewrite (update_unfold self tabla Hmode remote i datos fs (table_ok_readable _ _ _ Hok)).
  destruct (stored_uniform self tabla fs Hok) as (K & Hnd & HS & Hne & HU).
  pose proof (uniform_fits K _ HU) as Hfit.
  destruct (first_match (py_str i) (stored self tabla fs))
    as [Hno | (pre & r & post & Hsplit & Hpre & Hr)].
  - (* no record has the id: the records are written back *)
    rewrite update_first_no_match by assumption.
    destruct (stored self tabla fs) as [|r0 rs]; [discriminate|].
    pose proof (Forall_inv HU) as [Hk0 _]. rewrite <- Hk0 in Hfit.
    rewrite write_fit by assumption. discriminate.
  - rewrite Hsplit in *. rewrite update_first_split by assumption.
    apply Forall_app in HU as [HUpre HUr]. apply Forall_app in Hfit as [Hfpre Hfr].
    apply Forall_cons in HUr as [[Hkr _] HUpost]. apply Forall_cons in Hfr as [_ Hfpost].
    destruct pre as [|p0 pre].
    + (* the first record has the id: its keys become the columns *)
      cbn [app]. rewrite write_fit; [discriminate|].
      constructor; [apply fits_self|].
      eapply Forall_impl; [exact Hfpost|]. intros d Hd. apply fits_spec.
      intros k Hk. apply dict_update_keys. left. rewrite Hkr.
      apply (proj1 (fits_spec _ _) Hd). exact Hk.
    + pose proof (Forall_inv HUpre) as [Hk0 _]. rewrite <- Hk0 in *.
      change ((p0 :: pre) ++ dict_update r datos :: post)
        with (p0 :: (pre ++ dict_update r datos :: post)).
      unfold _write_csv.
      change (p0 :: (pre ++ dict_update r datos :: post))
        with ((p0 :: pre) ++ dict_update r datos :: post).
      rewrite (writerows_app_fit _ (p0 :: pre) _ Hfpre).
      destruct (fits (dict_keys p0) (dict_update r datos)) eqn:Hfu.
      * rewrite (writerows_fit (dict_keys p0) (dict_update r datos :: post))
          by (constructor; assumption).
        discriminate.
      * rewrite writerows_unfit by assumption. cbn [fst snd]. intros _.
        exists (p0 :: pre), r, post. split; [reflexivity|]. split; [discriminate|].
        split; [assumption|]. split; [assumption|].
        rewrite app_nil_r.
        change (<[_get_csv_path self tabla :=
                    Csv (List.map key_field (dict_keys p0)
                         :: List.map (row_of (dict_keys p0)) (p0 :: pre))]> fs)
          with (written self tabla (dict_keys p0) (p0 :: pre) fs).
        rewrite stored_written by (try apply Hne; auto; discriminate).
        apply uniform_normalise; assumption.
Qed.

(** Property X5: in local mode, on a table state that can be read and that
    the disk lets the store write, an [update] that returns [False], id and
    values being such as [str] turns into text, has cut the table short: some stored record has the id, the first such record is
    not the first of the table, and what is stored afterwards is exactly
    the records before it; that record and all later ones are gone. *)
Theorem failed_update_truncates (w : world) (self : Database) (remote : reply)
    (tabla : string) (i : value) (datos : dict) (fs : gmap string file) :
  csv_mode self = true →
  table_ok self tabla fs = true →
  readable self tabla fs = true →
  disk w (_get_csv_path self tabla) = Written →
  small_int i = true → small_ints datos = true →
  fst (Io.update w self remote tabla i datos fs) = Returns false →
  ∃ pre r post,
    stored self tabla fs = pre ++ r :: post
    ∧ pre ≠ []
    ∧ Forall (fun r => has_id (py_str i) r = false) pre
    ∧ has_id (py_str i) r = true
    ∧ stored self tabla (snd (Io.update w self remote tabla i datos fs)) = pre.
Proof.
  intros Hmode Hok Hr Ho _ _ Hret.
  pose proof (io_update_result w self tabla remote i datos fs false Hr Ho Hret) as E.
  rewrite E in Hret |- *. apply update_false_cut; assumption.
Qed.

Lemma failed_update_truncates_witness :
  ∃ pre r post,
    stored csv_store "clientes" two_clients = pre ++ r :: post
    ∧ pre ≠ []
    ∧ Forall (fun r => has_id (py_str (VInt 2)) r = false) pre
    ∧ has_id (py_str (VInt 2)) r = true
    ∧ stored csv_store "clientes"
        (snd (Io.update quiet csv_store unused "clientes" (VInt 2) [(Some "city", VStr "Z")]
                two_clients))
      = pre.
Proof.
  apply (failed_update_truncates quiet csv_store unused "clientes" (VInt 2)
           [(Some "city", VStr "Z")] two_clients).
  - reflexivity.
  - reflexivity.
  - reflexivity.
  - reflexivity.
  - vm_compute. reflexivity.
  - reflexivity.
  - vm_compute. reflexivity.
Defined.





(** Property X8: writing and reading back.  For a non-empty list of
    records that all have the keys of the first, in its order, these keys
    being strings and at least one, every value being such as [str] turns
    into text, and every field name and written value being within the
    limit of the reader: when the disk takes the write, [_write_csv] raises
    nothing and a following [_read_csv] returns the records, in order, each
    value in its string form ([''] for [None]). *)
Theorem write_then_read (w : world) (self : Database) (tabla : string) (d0 : dict)
    (rest : list dict) (fs : gmap string file) :
  disk w (_get_csv_path self tabla) = Written →
  NoDup (dict_keys d0) →
  Forall (fun k => is_Some k) (dict_keys d0) →
  dict_keys d0 ≠ [] →
  Forall (fun r => dict_keys r = dict_keys d0) rest →
  Forall (fun r => short_record r = true) (d0 :: rest) →
  Forall (fun r => small_ints r = true) (d0 :: rest) →
  fst (Io._write_csv w self tabla (d0 :: rest) fs) = Returns tt
  ∧ fst (Io._read_csv self tabla (snd (Io._write_csv w self tabla (d0 :: rest) fs)))
    = Returns (List.map stringify (d0 :: rest)).
Proof.
  intros Ho Hnd HS Hne Hrest Hshort _. rewrite io_write_agrees by assumption.
  destruct (write_same_keys self tabla (dict_keys d0) d0 rest fs Hnd HS Hne) as [Hw Hst].
  { constructor; [reflexivity | assumption]. }
  rewrite Hw. cbn [fst snd]. split; [reflexivity|].
  rewrite io_read_stored.
  - cbn [fst]. rewrite Hst. reflexivity.
  - apply readable_written; [|exact Hshort]. apply short_keys, (Forall_inv Hshort).
Qed.

Lemma write_then_read_witness :
  let d0 : dict := [(Some "id", VInt 3); (Some "total", VNone)] in
  let d1 : dict := [(Some "id", VStr "4"); (Some "total", VStr "9.50")] in
  fst (Io._write_csv quiet csv_store "ventas" (d0 :: [d1]) ∅) = Returns tt
  ∧ fst (Io._read_csv csv_store "ventas"
           (snd (Io._write_csv quiet csv_store "ventas" (d0 :: [d1]) ∅)))
    = Returns (List.map stringify (d0 :: [d1])).
Proof.
  apply (write_then_read quiet csv_store "ventas" [(Some "id", VInt 3); (Some "total", VNone)]
           [[(Some "id", VStr "4"); (Some "total", VStr "9.50")]] ∅).
  - reflexivity.
  - vm_compute. apply NoDup_cons. split.
    + intros H. apply list_elem_of_singleton in H. discriminate.
    + apply NoDup_singleton.
  - repeat constructor; eexists; reflexivity.
  - discriminate.
  - constructor; [reflexivity | constructor].
  - constructor; [reflexivity|]. constructor; [reflexivity | constructor].
  - constructor; [vm_compute; reflexivity|].
    constructor; [vm_compute; reflexivity | constructor].
Defined.

(** ** One file per table *)

Section Paths.

Lemma string_length_app (s1 s2 : string) :
  String.length (s1 ++ s2)%string = (String.length s1 + String.length s2)%nat.
Proof. induction s1 as [|c s1 IH]; simpl; [reflexivity | rewrite IH; reflexivity]. Qed.

Lemma string_app_longer (c : ascii) (s x : string) : x ≠ String c (s ++ x)%string.
Proof.
  intros H. apply (f_equal String.length) in H.
  change (String.length (String c (s ++ x)%string))
    with (S (String.length (s ++ x)%string)) in H.
  rewrite string_length_app in H. lia.
Qed.

Lemma string_app_inj_r (s1 s2 x : string) : (s1 ++ x = s2 ++ x)%string → s1 = s2.
Proof.
  revert s2. induction s1 as [|c s1 IH]; intros [|c2 s2] H.
  - reflexivity.
  - exfalso. exact (string_app_longer c2 s2 x H).
  - exfalso. symmetry in H. exact (string_app_longer c s1 x H).
  - injection H as -> H. f_equal. apply IH, H.
Qed.

(** [os.path.join("data_backup", b)] keeps an absolute [b] and prefixes
    any other. *)
Lemma path_join_data_backup (b : string) :
  (∃ r, b = String "/" r ∧ path_join "data_backup" b = b)
  ∨ ((∀ r, b ≠ String "/" r) ∧ path_join "data_backup" b = ("data_backup/" ++ b)%string).
Proof.
  destruct b as [|c r].
  - right. split; [discriminate | reflexivity].
  - destruct (decide (c = "/"%char)) as [->|Hne].
    + left. exists r. split; reflexivity.
    + right. split; [congruence|].
      destruct c as [[] [] [] [] [] [] [] []]; try reflexivity. congruence.
Qed.

Lemma get_csv_path_inj (self : Database) (t1 t2 : string) :
  csv_dir self = "data_backup" →
  _get_csv_path self t1 = _get_csv_path self t2 → t1 = t2.
Proof.
  unfold _get_csv_path. intros ->.
  destruct (path_join_data_backup (t1 ++ ".csv")) as [(r1 & Hb1 & ->) | (Hb1 & ->)];
  destruct (path_join_data_backup (t2 ++ ".csv")) as [(r2 & Hb2 & ->) | (Hb2 & ->)].
  - apply string_app_inj_r.
  - intros H. rewrite Hb1 in H. simpl in H. discriminate.
  - intros H. rewrite Hb2 in H. simpl in H. discriminate.
  - intros H. injection H as H. exact (string_app_inj_r t1 t2 ".csv" H).
Qed.

Lemma init_csv_dir (env : environment) (self : Database) :
  __init__ env = Returns self → csv_dir self = "data_backup".
Proof.
  unfold __init__. destruct (if dir_exists env then _ else _); [|discriminate].
  intros [= <-]. unfold _connect.
  destruct (is_set (SUPABASE_URL env) && is_set (SUPABASE_KEY env)); [|reflexivity].
  destruct (create_client env); [|reflexivity]. destruct (probe env); reflexivity.
Qed.

Lemma write_frame (self : Database) (tabla : string) (recs : list dict)
    (fs : gmap string file) (p : string) :
  p ≠ _get_csv_path self tabla →
  snd (_write_csv self tabla recs fs) !! p = fs !! p.
Proof.
  intros Hp. destruct recs as [|d0 rest]; [reflexivity|]. unfold _write_csv.
  destruct (writerows (dict_keys d0) (d0 :: rest)) as [r rows]. cbn [snd].
  apply lookup_insert_ne. congruence.
Qed.

(** Each operation leaves the file system as it is or as one call of
    [_write_csv] on its table leaves it. *)
Lemma step_writes (self : Database) (fs : gmap string file) (c : call) (remote : reply) :
  snd (step (self, fs) (c, remote)) = fs
  ∨ ∃ tabla recs, call_table c = Some tabla
                  ∧ snd (step (self, fs) (c, remote)) = snd (_write_csv self tabla recs fs).
Proof.
  destruct c as [tabla filtros | tabla datos | tabla i datos | tabla i |]; cbn [step snd].
  - left. apply select_keeps_fs.
  - unfold insert, try_except, insert_body, bind, lift, ret.
    destruct (csv_mode self); [|left; destruct remote; reflexivity].
    pose proof (read_keeps_fs self tabla fs) as Hr.
    destruct (_read_csv self tabla fs) as [[regs|e] fs']; simpl in Hr; subst fs';
      [|left; reflexivity].
    destruct (negb (dict_has datos id_key)); [destruct (next_id regs) as [v|e]|].
    + right. exists tabla, (regs ++ [dict_set datos id_key v]). split; [reflexivity|].
      destruct (_write_csv self tabla _ fs) as [[u|e] fs']; reflexivity.
    + left. reflexivity.
    + right. exists tabla, (regs ++ [datos]). split; [reflexivity|].
      destruct (_write_csv self tabla _ fs) as [[u|e] fs']; reflexivity.
  - unfold update, try_except, update_body, bind, lift, ret.
    destruct (csv_mode self); [|left; destruct remote; reflexivity].
    pose proof (read_keeps_fs self tabla fs) as Hr.
    destruct (_read_csv self tabla fs) as [[regs|e] fs']; simpl in Hr; subst fs';
      [|left; reflexivity].
    right. exists tabla, (update_first (py_str i) datos regs). split; [reflexivity|].
    destruct (_write_csv self tabla _ fs) as [[u|e] fs']; reflexivity.
  - unfold delete, try_except, delete_body, bind, lift, ret.
    destruct (csv_mode self); [|left; destruct remote; reflexivity].
    pose proof (read_keeps_fs self tabla fs) as Hr.
    destruct (_read_csv self tabla fs) as [[regs|e] fs']; simpl in Hr; subst fs';
      [|left; reflexivity].
    right.
    exists tabla,
      (List.filter (fun r => negb (py_eq (py_get r id_key VNone) (VStr (py_str i)))) regs).
    split; [reflexivity|].
    destruct (_write_csv self tabla _ fs) as [[u|e] fs']; reflexivity.
  - left. reflexivity.
Qed.
End Paths.

Section IoSteps.

Lemma io_try_snd {A : Type} (w : world) (msg : message) (body : M A) (fallback : A)
    (fs : gmap string file) :
  snd (Io.try_except w msg body fallback fs) = snd (body fs).
Proof.
  unfold Io.try_except. destruct (body fs) as [[a|e] fs']; [reflexivity|].
  destruct (print w msg); reflexivity.
Qed.

(** Each operation leaves the file system as it is, or as one call of
    [_write_csv] on its table leaves it, or with the file of its table
    broken. *)
Lemma io_step_writes (self : Database) (fs : gmap string file) (c : call) (remote : reply)
    (w : world) :
  snd (Io.step (self, fs) (c, remote, w)) = fs
  ∨ (∃ tabla recs, call_table c = Some tabla
                   ∧ snd (Io.step (self, fs) (c, remote, w))
                     = snd (_write_csv self tabla recs fs))
  ∨ (∃ tabla e remains, call_table c = Some tabla
                        ∧ disk w (_get_csv_path self tabla) = Broken e remains
                        ∧ snd (Io.step (self, fs) (c, remote, w))
                          = <[_get_csv_path self tabla := remains]> fs).
Proof.
  assert (Hwrite : ∀ tabla recs,
             call_table c = Some tabla →
             snd (Io.step (self, fs) (c, remote, w)) = snd (Io._write_csv w self tabla recs fs) →
             snd (Io.step (self, fs) (c, remote, w)) = fs
             ∨ (∃ tabla recs, call_table c = Some tabla
                              ∧ snd (Io.step (self, fs) (c, remote, w))
                                = snd (_write_csv self tabla recs fs))
             ∨ (∃ tabla e remains, call_table c = Some tabla
                                   ∧ disk w (_get_csv_path self tabla) = Broken e remains
                                   ∧ snd (Io.step (self, fs) (c, remote, w))
                                     = <[_get_csv_path self tabla := remains]> fs)).
  { intros tabla recs Hc Hs.
    destruct (io_write_cases w self tabla recs fs) as [Hw | [Hw | (e & remains & Hd & Hw)]].
    - left. rewrite Hs. exact Hw.
    - right. left. exists tabla, recs. split; [exact Hc|]. rewrite Hs, Hw. reflexivity.
    - right. right. exists tabla, e, remains. split; [exact Hc|]. split; [exact Hd|].
      rewrite Hs. exact Hw. }
  destruct c as [tabla filtros | tabla datos | tabla i datos | tabla i |].
  - left. cbn [Io.step snd]. unfold Io.select. rewrite io_try_snd.
    unfold Io.select_body, bind, lift.
    destruct (csv_mode self); [|reflexivity].
    pose proof (io_read_keeps_fs self tabla fs) as Hr.
    destruct (Io._read_csv self tabla fs) as [[regs|e] fs']; simpl in Hr; subst fs';
      [destruct (truthy filtros)|]; reflexivity.
  - assert (Hs : snd (Io.step (self, fs) (CallInsert tabla datos, remote, w)) = fs
                 ∨ ∃ recs, snd (Io.step (self, fs) (CallInsert tabla datos, remote, w))
                           = snd (Io._write_csv w self tabla recs fs)).
    { cbn [Io.step snd]. unfold Io.insert. rewrite io_try_snd.
      unfold Io.insert_body, bind, lift, ret.
      destruct (csv_mode self); [|left; destruct remote; reflexivity].
      pose proof (io_read_keeps_fs self tabla fs) as Hr.
      destruct (Io._read_csv self tabla fs) as [[regs|e] fs']; simpl in Hr; subst fs';
        [|left; reflexivity].
      destruct (negb (dict_has datos id_key)); [destruct (next_id regs) as [v|e]|].
      - right. exists (regs ++ [dict_set datos id_key v]).
        destruct (Io._write_csv w self tabla _ fs) as [[u|e] fs']; reflexivity.
      - left. reflexivity.
      - right. exists (regs ++ [datos]).
        destruct (Io._write_csv w self tabla _ fs) as [[u|e] fs']; reflexivity. }
    destruct Hs as [Hs | [recs Hs]]; [left; exact Hs|].
    apply (Hwrite tabla recs); [reflexivity | exact Hs].
  - assert (Hs : snd (Io.step (self, fs) (CallUpdate tabla i datos, remote, w)) = fs
                 ∨ ∃ recs, snd (Io.step (self, fs) (CallUpdate tabla i datos, remote, w))
                           = snd (Io._write_csv w self tabla recs fs)).
    { cbn [Io.step snd]. unfold Io.update. rewrite io_try_snd.
      unfold Io.update_body, bind, lift, ret.
      destruct (csv_mode self); [|left; destruct remote; reflexivity].
      pose proof (io_read_keeps_fs self tabla fs) as Hr.
      destruct (Io._read_csv self tabla fs) as [[regs|e] fs']; simpl in Hr; subst fs';
        [|left; reflexivity].
      right. exists (update_first (py_str i) datos regs).
      destruct (Io._write_csv w self tabla _ fs) as [[u|e] fs']; reflexivity. }
    destruct Hs as [Hs | [recs Hs]]; [left; exact Hs|].
    apply (Hwrite tabla recs); [reflexivity | exact Hs].
  - assert (Hs : snd (Io.step (self, fs) (CallDelete tabla i, remote, w)) = fs
                 ∨ ∃ recs, snd (Io.step (self, fs) (CallDelete tabla i, remote, w))
                           = snd (Io._write_csv w self tabla recs fs)).
    { cbn [Io.step snd]. unfold Io.delete. rewrite io_try_snd.
      unfold Io.delete_body, bind, lift, ret.
      destruct (csv_mode self); [|left; destruct remote; reflexivity].
      pose proof (io_read_keeps_fs self tabla fs) as Hr.
      destruct (Io._read_csv self tabla fs) as [[regs|e] fs']; simpl in Hr; subst fs';
        [|left; reflexivity].
      right.
      exists (List.filter (fun r => negb (py_eq (py_get r id_key VNone) (VStr (py_str i))))
                regs).
      destruct (Io._write_csv w self tabla _ fs) as [[u|e] fs']; reflexivity. }
    destruct Hs as [Hs | [recs Hs]]; [left; exact Hs|].
    apply (Hwrite tabla recs); [reflexivity | exact Hs].
  - left. reflexivity.
Qed.

Lemma io_step_self (self : Database) (fs : gmap string file) (c : call * reply * world) :
  Io.step (self, fs) c = (self, snd (Io.step (self, fs) c)).
Proof. destruct c as [[[] remote] w]; reflexivity. Qed.

Lemma io_init_csv_dir (w : world) (env : environment) (self : Database) :
  Io.__init__ w env = Returns self → csv_dir self = "data_backup".
Proof.
  unfold Io.__init__, Io._connect, Io.handler.
  destruct (if dir_exists env then _ else _); [|discriminate].
  destruct (is_set (SUPABASE_URL env) && is_set (SUPABASE_KEY env));
    [destruct (create_client env); [destruct (probe env); [destruct (print w MsgConnected)|]|]|];
    destruct (print w MsgNoConnection); try discriminate;
    destruct (print w MsgUsingCsv); try discriminate;
    intros [= <-]; reflexivity.
Qed.
End IoSteps.

(** Property X9: one file per table.  On a constructed store, for table
    names without a path separator (each then names its own file of
    [data_backup]), calls on other tables, however many and whatever they
    return, leave the file of a table, and so its stored records, as they
    were. *)
Theorem tables_are_isolated (w0 : world) (env : environment) (self : Database)
    (tabla : string) (calls : list (call * reply * world)) (fs : gmap string file) :
  Io.__init__ w0 env = Returns self →
  flat tabla = true →
  Forall (fun c => ∀ t, call_table (fst (fst c)) = Some t → flat t = true ∧ t ≠ tabla) calls →
  snd (Io.run calls (self, fs)) !! _get_csv_path self tabla = fs !! _get_csv_path self tabla
  ∧ stored self tabla (snd (Io.run calls (self, fs))) = stored self tabla fs.
Proof.
  intros Hinit _ Hcalls. apply io_init_csv_dir in Hinit.
  assert (Hfile : snd (Io.run calls (self, fs)) !! _get_csv_path self tabla
                  = fs !! _get_csv_path self tabla).
  { unfold Io.run. revert fs. induction Hcalls as [|[[c remote] w] calls Hc _ IH]; intros fs.
    - reflexivity.
    - cbn [fold_left]. cbn [fst] in Hc. rewrite io_step_self, IH.
      destruct (io_step_writes self fs c remote w)
        as [-> | [(t & recs & Ht & ->) | (t & e & remains & Ht & _ & ->)]]; [reflexivity | |].
      + apply write_frame. intros Hp. apply get_csv_path_inj in Hp; [|assumption].
        subst t. destruct (Hc tabla Ht) as [_ Hne]. congruence.
      + apply lookup_insert_ne. intros Hp. apply get_csv_path_inj in Hp; [|assumption].
        subst t. destruct (Hc tabla Ht) as [_ Hne]. congruence. }
  split; [exact Hfile|]. unfold stored. rewrite Hfile. reflexivity.
Qed.

Lemma tables_are_isolated_witness :
  let calls := [(CallInsert "ventas" [(Some "total", VStr "5")], unused, quiet);
                (CallDelete "productos" (VInt 1), unused, read_only_disk);
                (CallInsert "compras" [(Some "total", VStr "7")], unused, full_disk)] in
  snd (Io.run calls (csv_store, two_clients)) !! _get_csv_path csv_store "clientes"
  = two_clients !! _get_csv_path csv_store "clientes"
  ∧ stored csv_store "clientes" (snd (Io.run calls (csv_store, two_clients)))
    = stored csv_store "clientes" two_clients.
Proof.
  apply (tables_are_isolated quiet offline_env csv_store "clientes").
  - reflexivity.
  - reflexivity.
  - constructor; [|constructor; [|constructor; [|constructor]]]; cbn [fst call_table];
      intros t [= <-]; (split; [reflexivity | discriminate]).
Defined.




(** Property X11: what never writes.  [select] leaves the file system as
    it is in either mode, whatever it returns; in remote mode so do
    [insert], [update] and [delete], also when the backend raises: no call
    falls back to the local files. *)
Theorem reads_and_remote_calls_never_write (self : Database) (remote : reply)
    (tabla : string) (filtros : option dict) (i : value) (datos : dict)
    (fs : gmap string file) :
  snd (select self remote tabla filtros fs) = fs
  ∧ (csv_mode self = false →
     snd (insert self remote tabla datos fs) = fs
     ∧ snd (update self remote tabla i datos fs) = fs
     ∧ snd (delete self remote tabla i fs) = fs).
Proof.
  split; [apply select_keeps_fs|]. intros Hmode.
  unfold insert, update, delete, try_except, insert_body, update_body, delete_body, bind, lift.
  rewrite Hmode. destruct remote; split; [|split| |split]; reflexivity.
Qed.

(** Property X12: table files keep their shape.  From a file system in
    which a table's file is missing or has one field per column in every
    row, any sequence of calls, on any tables, whatever each returns and
    whether or not the writer raises half-way or a file fails to open, leads
    to a file system in which it still is so, as long as no write breaks on
    the device.  (Such a file need not be within the limit of the
    reader.) *)
Theorem table_files_stay_well_formed (self self' : Database) (tabla : string)
    (calls : list (call * reply * world)) (fs : gmap string file) :
  table_ok self tabla fs = true →
  Forall (fun c => ∀ p e remains, disk (snd c) p ≠ Broken e remains) calls →
  table_ok self tabla (snd (Io.run calls (self', fs))) = true.
Proof.
  unfold Io.run. intros Hok Hcalls. revert fs Hok.
  induction Hcalls as [|[[c remote] w] calls Hc _ IH]; intros fs Hok; [exact Hok|].
  cbn [fold_left]. rewrite io_step_self. apply IH. cbn [snd] in Hc.
  destruct (io_step_writes self' fs c remote w)
    as [-> | [(t & recs & _ & ->) | (t & e & remains & _ & Hd & _)]]; [exact Hok | |].
  - apply write_table_ok, Hok.
  - destruct (Hc _ _ _ Hd).
Qed.

Lemma table_files_stay_well_formed_witness :
  let calls := [(CallInsert "clientes" [(Some "name", VStr "Ana")], unused, quiet);
                (CallUpdate "clientes" (VInt 1) [(Some "city", VStr "Z")], unused, quiet);
                (CallInsert "clientes" [(Some "zip", VStr "1")], unused, ascii_console);
                (CallDelete "clientes" (VInt 1), unused, read_only_disk)] in
  table_ok csv_store "clientes" (snd (Io.run calls (csv_store, ∅))) = true.
Proof.
  apply (table_files_stay_well_formed csv_store csv_store "clientes"); [reflexivity|].
  constructor; [|constructor; [|constructor; [|constructor; [|constructor]]]];
    intros p e remains; discriminate.
Defined.

(** ** [update] twice, and [update] of the first record *)

Section UpdateMore.
Variable self : Database.
Variable tabla : string.
Hypothesis local_mode : csv_mode self = true.
Implicit Types (fs : gmap string file) (d : dict) (K : list key) (recs : list dict).




End UpdateMore.





(** ** [_oscurecer_color] *)

Section Colours.

Lemma In_all_ascii (c : ascii) : In c all_ascii.
Proof.
  unfold all_ascii. apply in_map_iff. exists (nat_of_ascii c).
  split; [apply ascii_nat_embedding|]. apply in_seq.
  pose proof (nat_ascii_bounded c). lia.
Qed.

Lemma plain_hex_all (c : ascii) : plain_hex c = true.
Proof.
  assert (H : forallb plain_hex all_ascii = true) by (vm_compute; reflexivity).
  rewrite forallb_forall in H. apply H, In_all_ascii.
Qed.

Lemma hex_char (c : ascii) (v : Z) :
  hex_of c = Some v →
  is_space c = false ∧ c ≠ "#"%char ∧ c ≠ "-"%char ∧ c ≠ "+"%char
  ∧ c ≠ "x"%char ∧ c ≠ "X"%char.
Proof.
  intros Hv. pose proof (plain_hex_all c) as H. unfold plain_hex in H. rewrite Hv in H.
  repeat (apply andb_prop in H as [H ?]).
  repeat match goal with
         | Hn : negb _ = true |- _ => apply negb_true_iff in Hn
         end.
  repeat match goal with
         | Hn : bool_decide _ = false |- _ => apply bool_decide_eq_false_1 in Hn
         end.
  repeat split; assumption.
Qed.

(** Two hexadecimal digits read as one byte. *)
Lemma int_of_two_hex (a b : ascii) (va vb : Z) :
  hex_of a = Some va → hex_of b = Some vb →
  int_of_string_16 [a; b] = Some (16 * va + vb).
Proof.
  intros Ha Hb.
  destruct (hex_char a va Ha) as (Hsa & _ & Hma & Hpa & _ & _).
  destruct (hex_char b vb Hb) as (Hsb & _ & _ & _ & Hxb & HXb).
  unfold int_of_string_16.
  rewrite strip_no_space by (constructor; [assumption | constructor; [assumption | constructor]]).
  rewrite !bool_decide_eq_false_2 by assumption.
  unfold skip_0x. rewrite (bool_decide_eq_false_2 (b = "x"%char)) by assumption.
  rewrite (bool_decide_eq_false_2 (b = "X"%char)) by assumption.
  rewrite andb_false_r. simpl. rewrite Ha, Hb. f_equal; lia.
Qed.

Lemma lstrip_char_hex (a : ascii) (va : Z) (l : list ascii) :
  hex_of a = Some va → lstrip_char "#" (a :: l) = a :: l.
Proof.
  intros Ha. destruct (hex_char a va Ha) as (_ & Hh & _). simpl.
  rewrite bool_decide_eq_false_2 by assumption. reflexivity.
Qed.

(** The colour computed from six hexadecimal digits, whatever follows
    them and however many [#] come first. *)
Lemma oscurecer_color_hex (h1 h2 h3 h4 h5 h6 : ascii) (v1 v2 v3 v4 v5 v6 : Z)
    (hashes : nat) (rest : string) :
  hex_of h1 = Some v1 → hex_of h2 = Some v2 → hex_of h3 = Some v3 →
  hex_of h4 = Some v4 → hex_of h5 = Some v5 → hex_of h6 = Some v6 →
  _oscurecer_color
    (string_of_list_ascii (repeat "#"%char hashes)
     ++ String h1 (String h2 (String h3 (String h4 (String h5 (String h6 rest))))))%string
  = Returns (String "#" (format_02x (Z.max 0 (16 * v1 + v2 - 30))
                         ++ format_02x (Z.max 0 (16 * v3 + v4 - 30))
                         ++ format_02x (Z.max 0 (16 * v5 + v6 - 30))))%string.
Proof.
  intros H1 H2 H3 H4 H5 H6. unfold _oscurecer_color.
  assert (Hstrip : lstrip_char "#"
            (list_ascii_of_string
               (string_of_list_ascii (repeat "#"%char hashes)
                ++ String h1 (String h2 (String h3 (String h4 (String h5 (String h6 rest))))))%string)
          = h1 :: h2 :: h3 :: h4 :: h5 :: h6 :: list_ascii_of_string rest).
  { induction hashes as [|n IH]; simpl.
    - destruct (hex_char h1 v1 H1) as (_ & Hh & _).
      rewrite bool_decide_eq_false_2 by assumption. reflexivity.
    - exact IH. }
  rewrite Hstrip.
  change (slice 0 (0 + 2) (h1 :: h2 :: h3 :: h4 :: h5 :: h6 :: list_ascii_of_string rest))
    with [h1; h2].
  change (slice 2 (2 + 2) (h1 :: h2 :: h3 :: h4 :: h5 :: h6 :: list_ascii_of_string rest))
    with [h3; h4].
  change (slice 4 (4 + 2) (h1 :: h2 :: h3 :: h4 :: h5 :: h6 :: list_ascii_of_string rest))
    with [h5; h6].
  rewrite (int_of_two_hex h1 h2 v1 v2), (int_of_two_hex h3 h4 v3 v4),
    (int_of_two_hex h5 h6 v5 v6) by assumption.
  reflexivity.
Qed.
End Colours.

(** Property X15: [_oscurecer_color] on a colour written as six
    hexadecimal digits, in either case, after any number of [#] and before
    anything else: it returns [#] and, for each of the three channels, the
    channel less 30 and not below 0, as two lower-case hexadecimal
    digits. *)
Theorem oscurecer_color_darkens (h1 h2 h3 h4 h5 h6 : ascii) (v1 v2 v3 v4 v5 v6 : Z)
    (hashes : nat) (rest : string) :
  hex_of h1 = Some v1 → hex_of h2 = Some v2 → hex_of h3 = Some v3 →
  hex_of h4 = Some v4 → hex_of h5 = Some v5 → hex_of h6 = Some v6 →
  _oscurecer_color
    (string_of_list_ascii (repeat "#"%char hashes)
     ++ String h1 (String h2 (String h3 (String h4 (String h5 (String h6 rest))))))%string
  = Returns (String "#" (format_02x (Z.max 0 (16 * v1 + v2 - 30))
                         ++ format_02x (Z.max 0 (16 * v3 + v4 - 30))
                         ++ format_02x (Z.max 0 (16 * v5 + v6 - 30))))%string.
Proof. apply oscurecer_color_hex. Qed.

Lemma oscurecer_color_darkens_witness :
  _oscurecer_color "#2563eb" = Returns "#0745cd".
Proof.
  apply (oscurecer_color_darkens "2" "5" "6" "3" "e" "b" 2 5 6 3 14 11 1 "");
    reflexivity.
Defined.

Section ColourShape.

Lemma short_slices_bounded_true : short_slices_bounded = true.
Proof. vm_compute. reflexivity. Qed.

(** A slice of at most two characters never reads as more than 255. *)
Lemma channel_le_255 (l : list ascii) (v : Z) :
  (length l ≤ 2)%nat → int_of_string_16 l = Some v → v ≤ 255.
Proof.
  intros Hlen Hv. pose proof short_slices_bounded_true as H.
  unfold short_slices_bounded in H. apply andb_prop in H as [H0 H].
  rewrite forallb_forall in H.
  assert (Hb : channel_bounded l = true).
  { destruct l as [|a [|b [|c l]]]; [exact H0 | | | simpl in Hlen; lia].
    - specialize (H a (In_all_ascii a)). apply andb_prop in H as [H _]. exact H.
    - specialize (H a (In_all_ascii a)). apply andb_prop in H as [_ H].
      rewrite forallb_forall in H. apply H, In_all_ascii. }
  unfold channel_bounded in Hb. rewrite Hv in Hb. apply Z.leb_le, Hb.
Qed.

Lemma slice_length (i : nat) (l : list ascii) : (length (slice i (i + 2) l) ≤ 2)%nat.
Proof.
  unfold slice. replace (i + 2 - i)%nat with 2%nat by lia.
  rewrite length_take. lia.
Qed.

Lemma bytes_two_digits_true : bytes_two_digits = true.
Proof. vm_compute. reflexivity. Qed.

(** A number from 0 to 255 is formatted as two hexadecimal digits. *)
Lemma format_two_digits (n : Z) :
  0 ≤ n ≤ 255 →
  ∃ a b va vb, format_02x n = String a (String b "")
               ∧ hex_of a = Some va ∧ hex_of b = Some vb ∧ 16 * va + vb = n.
Proof.
  intros Hn. pose proof bytes_two_digits_true as H. unfold bytes_two_digits in H.
  rewrite forallb_forall in H. specialize (H (Z.to_nat n)).
  rewrite Z2Nat.id in H by lia.
  assert (Hin : In (Z.to_nat n) (seq 0 256)) by (apply in_seq; lia).
  specialize (H Hin). unfold two_digits in H.
  destruct (format_02x n) as [|a [|b [|c s]]]; simpl in H; try discriminate.
  destruct (hex_of a) as [va|] eqn:Ha; [|discriminate].
  destruct (hex_of b) as [vb|] eqn:Hb; [|discriminate].
  exists a, b, va, vb. split; [reflexivity|]. split; [exact Ha|]. split; [exact Hb|].
  apply Z.eqb_eq, H.
Qed.
End ColourShape.

(** Property X16: whenever [_oscurecer_color] returns, what it returns is
    [#] and three channels from 0 to 225, each as two hexadecimal digits;
    such a colour is accepted again, and darkened again by 30 a channel. *)
Theorem oscurecer_color_result (color result : string) :
  _oscurecer_color color = Returns result →
  ∃ r g b, 0 ≤ r ≤ 225 ∧ 0 ≤ g ≤ 225 ∧ 0 ≤ b ≤ 225
    ∧ result = (String "#" (format_02x r ++ format_02x g ++ format_02x b))%string
    ∧ String.length result = 7%nat
    ∧ _oscurecer_color result
      = Returns (String "#" (format_02x (Z.max 0 (r - 30)) ++ format_02x (Z.max 0 (g - 30))
                             ++ format_02x (Z.max 0 (b - 30))))%string.
Proof.
  unfold _oscurecer_color at 1.
  set (l := lstrip_char "#" (list_ascii_of_string color)).
  destruct (int_of_string_16 (slice 0 (0 + 2) l)) as [r|] eqn:Hr; [|discriminate].
  destruct (int_of_string_16 (slice 2 (2 + 2) l)) as [g|] eqn:Hg; [|discriminate].
  destruct (int_of_string_16 (slice 4 (4 + 2) l)) as [b|] eqn:Hb; [|discriminate].
  intros [= <-].
  apply channel_le_255 in Hr; [|apply slice_length].
  apply channel_le_255 in Hg; [|apply slice_length].
  apply channel_le_255 in Hb; [|apply slice_length].
  exists (Z.max 0 (r - 30)), (Z.max 0 (g - 30)), (Z.max 0 (b - 30)).
  split; [lia|]. split; [lia|]. split; [lia|]. split; [reflexivity|].
  destruct (format_two_digits (Z.max 0 (r - 30))) as (a1 & a2 & u1 & u2 & -> & Ha1 & Ha2 & Hu);
    [lia|].
  destruct (format_two_digits (Z.max 0 (g - 30))) as (a3 & a4 & u3 & u4 & -> & Ha3 & Ha4 & Hw);
    [lia|].
  destruct (format_two_digits (Z.max 0 (b - 30))) as (a5 & a6 & u5 & u6 & -> & Ha5 & Ha6 & Hx);
    [lia|].
  split; [reflexivity|].
  rewrite <- Hu, <- Hw, <- Hx.
  apply (oscurecer_color_hex a1 a2 a3 a4 a5 a6 u1 u2 u3 u4 u5 u6 1 ""); assumption.
Qed.

Lemma oscurecer_color_result_witness :
  ∃ r g b, 0 ≤ r ≤ 225 ∧ 0 ≤ g ≤ 225 ∧ 0 ≤ b ≤ 225
    ∧ "#e11300"%string = (String "#" (format_02x r ++ format_02x g ++ format_02x b))%string
    ∧ String.length "#e11300" = 7%nat
    ∧ _oscurecer_color "#e11300"
      = Returns (String "#" (format_02x (Z.max 0 (r - 30)) ++ format_02x (Z.max 0 (g - 30))
                             ++ format_02x (Z.max 0 (b - 30))))%string.
Proof. apply (oscurecer_color_result "#FF3105extra" "#e11300"). reflexivity. Defined.

(** Property X17: [_oscurecer_color] raises [ValueError] on every colour
    with fewer than five characters after its leading [#]s; the three-digit
    form [#rgb] is one of them. *)
Theorem oscurecer_color_short (color : string) :
  (length (lstrip_char "#" (list_ascii_of_string color)) < 5)%nat →
  _oscurecer_color color = Raises ValueError.
Proof.
  intros Hlen. unfold _oscurecer_color.
  set (l := lstrip_char "#" (list_ascii_of_string color)) in *.
  assert (H4 : slice 4 (4 + 2) l = []).
  { unfold slice. rewrite drop_ge by lia. reflexivity. }
  rewrite H4.
  destruct (int_of_string_16 (slice 0 (0 + 2) l)); [|reflexivity].
  destruct (int_of_string_16 (slice 2 (2 + 2) l)); reflexivity.
Qed.

Lemma oscurecer_color_short_witness : _oscurecer_color "#fff" = Raises ValueError.
Proof. apply (oscurecer_color_short "#fff"). vm_compute. lia. Defined.

(** Property X18: [_centrar_ventana] places a window that fits the screen
    entirely on the screen, with margins that differ by one pixel at most
    on each axis. *)
Theorem centrar_ventana_on_screen (screen_width screen_height width height : Z) :
  0 ≤ width ≤ screen_width →
  0 ≤ height ≤ screen_height →
  ∃ x y, _centrar_ventana screen_width screen_height width height
         = geometry width height x y
    ∧ 0 ≤ x ∧ x + width ≤ screen_width
    ∧ 0 ≤ y ∧ y + height ≤ screen_height
    ∧ -1 ≤ (screen_width - width - x) - x ≤ 1
    ∧ -1 ≤ (screen_height - height - y) - y ≤ 1.
Proof.
  intros Hw Hh.
  exists (screen_width / 2 - width / 2), (screen_height / 2 - height / 2).
  split; [reflexivity|].
  pose proof (Z.div_mod screen_width 2 ltac:(lia)).
  pose proof (Z.mod_pos_bound screen_width 2 ltac:(lia)).
  pose proof (Z.div_mod width 2 ltac:(lia)).
  pose proof (Z.mod_pos_bound width 2 ltac:(lia)).
  pose proof (Z.div_mod screen_height 2 ltac:(lia)).
  pose proof (Z.mod_pos_bound screen_height 2 ltac:(lia)).
  pose proof (Z.div_mod height 2 ltac:(lia)).
  pose proof (Z.mod_pos_bound height 2 ltac:(lia)).
  lia.
Qed.

Lemma centrar_ventana_on_screen_witness :
  ∃ x y, _centrar_ventana 1366 768 900 700 = geometry 900 700 x y
    ∧ 0 ≤ x ∧ x + 900 ≤ 1366
    ∧ 0 ≤ y ∧ y + 700 ≤ 768
    ∧ -1 ≤ (1366 - 900 - x) - x ≤ 1
    ∧ -1 ≤ (768 - 700 - y) - y ≤ 1.
Proof. apply (centrar_ventana_on_screen 1366 768 900 700); lia. Defined.








(** ** A field above the limit of the reader *)

Section Oversized.
Variable self : Database.
Variable tabla : string.
Implicit Types (fs : gmap string file) (d : dict) (K : list key) (recs : list dict).

Lemma writerows_returns K recs :
  fst (writerows K recs) = Returns tt →
  writerows K recs = (Returns tt, List.map (row_of K) recs)
  ∧ Forall (fun d => fits K d = true) recs.
Proof.
  induction recs as [|d recs IH]; simpl.
  - intros _. split; [reflexivity | constructor].
  - unfold dict_to_list. destruct (fits K d) eqn:Hd; [|discriminate].
    destruct (writerows K recs) as [r rows]. cbn [fst] in *. intros ->.
    destruct (IH eq_refl) as [[= ->] Hfit]. split; [reflexivity|].
    constructor; assumption.
Qed.

(** A write that raises nothing has written every record. *)
Lemma io_write_returns (w : world) d0 rest fs :
  fst (Io._write_csv w self tabla (d0 :: rest) fs) = Returns tt →
  snd (Io._write_csv w self tabla (d0 :: rest) fs)
  = written self tabla (dict_keys d0) (d0 :: rest) fs
  ∧ Forall (fun d => fits (dict_keys d0) d = true) (d0 :: rest).
Proof.
  unfold Io._write_csv. destruct (disk w (_get_csv_path self tabla)); [|discriminate..].
  pose proof (writerows_returns (dict_keys d0) (d0 :: rest)) as Hw.
  destruct (writerows (dict_keys d0) (d0 :: rest)) as [r rows]. cbn [fst snd] in *.
  intros ->. destruct (Hw eq_refl) as [[= ->] Hfit]. split; [reflexivity | exact Hfit].
Qed.

(** A written record with a value above the limit makes the file
    unreadable. *)
Lemma written_oversized K recs d k v fs :
  In d recs → k ∈ K → dict_get d k = Some v → short (to_field v) = false →
  readable self tabla (written self tabla K recs fs) = false.
Proof.
  intros Hd Hk Hg Hv. unfold readable, written. rewrite lookup_insert_eq.
  unfold within_limit. cbn [forallb]. apply andb_false_iff. right.
  apply not_true_is_false. intros Hall. rewrite forallb_forall in Hall.
  assert (Hrow : forallb short (row_of K d) = true).
  { apply Hall, in_map_iff. exists d. split; [reflexivity | exact Hd]. }
  rewrite forallb_forall in Hrow.
  assert (Hin : In (to_field v) (row_of K d)).
  { unfold row_of. apply in_map_iff. exists k. unfold py_get. rewrite Hg.
    split; [reflexivity | apply list_elem_of_In, Hk]. }
  apply Hrow in Hin. congruence.
Qed.

Lemma io_unreadable_select (w : world) remote filtros fs :
  csv_mode self = true → readable self tabla fs = false →
  print w (MsgSelectError tabla) = Returns tt →
  Io.select w self remote tabla filtros fs = (Returns [], fs).
Proof.
  intros Hmode Hr Hp. unfold Io.select, Io.try_except, Io.select_body, bind.
  rewrite Hmode, io_read_raises by assumption. rewrite Hp. reflexivity.
Qed.

Lemma io_unreadable_insert (w : world) remote datos fs :
  csv_mode self = true → readable self tabla fs = false →
  print w (MsgInsertError tabla) = Returns tt →
  Io.insert w self remote tabla datos fs = (Returns false, fs).
Proof.
  intros Hmode Hr Hp. unfold Io.insert, Io.try_except, Io.insert_body, bind.
  rewrite Hmode, io_read_raises by assumption. rewrite Hp. reflexivity.
Qed.

Lemma io_unreadable_update (w : world) remote i datos fs :
  csv_mode self = true → readable self tabla fs = false →
  print w (MsgUpdateError tabla) = Returns tt →
  Io.update w self remote tabla i datos fs = (Returns false, fs).
Proof.
  intros Hmode Hr Hp. unfold Io.update, Io.try_except, Io.update_body, bind.
  rewrite Hmode, io_read_raises by assumption. rewrite Hp. reflexivity.
Qed.

Lemma io_unreadable_delete (w : world) remote i fs :
  csv_mode self = true → readable self tabla fs = false →
  print w (MsgDeleteError tabla) = Returns tt →
  Io.delete w self remote tabla i fs = (Returns false, fs).
Proof.
  intros Hmode Hr Hp. unfold Io.delete, Io.try_except, Io.delete_body, bind.
  rewrite Hmode, io_read_raises by assumption. rewrite Hp. reflexivity.
Qed.

(** After an [insert] that returned [True] of a record with a value above
    the limit, the table file cannot be read. *)
Lemma insert_oversized (w : world) remote datos k v fs :
  csv_mode self = true →
  dict_get datos k = Some v → short (to_field v) = false →
  fst (Io.insert w self remote tabla datos fs) = Returns true →
  readable self tabla (snd (Io.insert w self remote tabla datos fs)) = false.
Proof.
  intros Hmode Hg Hv.
  assert (Hwrite : ∀ datos', dict_get datos' k = Some v → ∀ regs,
             fst (Io._write_csv w self tabla (regs ++ [datos']) fs) = Returns tt →
             readable self tabla (snd (Io._write_csv w self tabla (regs ++ [datos']) fs))
             = false).
  { intros datos' Hg' regs Hret.
    assert (Hin : In datos' (regs ++ [datos'])) by (apply in_or_app; right; left; reflexivity).
    destruct (regs ++ [datos']) as [|d0 rest]; [destruct Hin|].
    destruct (io_write_returns w d0 rest fs Hret) as [-> Hfit].
    apply (written_oversized (dict_keys d0) (d0 :: rest) datos' k v); try assumption.
    rewrite List.Forall_forall in Hfit. apply (proj1 (fits_spec _ _) (Hfit datos' Hin)).
    eapply dict_get_Some_in, Hg'. }
  unfold Io.insert, Io.try_except, Io.insert_body, bind, lift, ret. rewrite Hmode.
  pose proof (io_read_keeps_fs self tabla fs) as Hr.
  destruct (Io._read_csv self tabla fs) as [[regs|e] fs']; cbn [snd] in Hr; subst fs'.
  2:{ destruct (print w (MsgInsertError tabla)); discriminate. }
  destruct (dict_has datos id_key) eqn:Hid; cbn [negb].
  - specialize (Hwrite datos Hg regs).
    destruct (Io._write_csv w self tabla (regs ++ [datos]) fs) as [[u|e] fs'']; cbn [fst snd] in *.
    + intros _. destruct u. apply Hwrite. reflexivity.
    + destruct (print w (MsgInsertError tabla)); discriminate.
  - destruct (next_id regs) as [v'|e].
    2:{ destruct (print w (MsgInsertError tabla)); discriminate. }
    assert (Hg' : dict_get (dict_set datos id_key v') k = Some v).
    { rewrite dict_get_set. rewrite bool_decide_eq_false_2; [exact Hg|].
      intros <-. apply bool_decide_eq_false_1 in Hid. apply Hid.
      eapply dict_get_Some_in, Hg. }
    specialize (Hwrite _ Hg' regs).
    destruct (Io._write_csv w self tabla (regs ++ [dict_set datos id_key v']) fs)
      as [[u|e] fs'']; cbn [fst snd] in *.
    + intros _. destruct u. apply Hwrite. reflexivity.
    + destruct (print w (MsgInsertError tabla)); discriminate.
Qed.
End Oversized.

(** Property X22: the writer has no limit on the size of a field, the
    reader has one.  In local mode, an [insert] that returned [True] of a
    record with a value whose written form is above the limit leaves a
    table file that cannot be read: from then on, on a console that prints,
    [select] returns the empty list and [insert], [update] and [delete]
    return [False], and none of them changes the file.  (The integers among
    the values, and the stored ids, are such as [str] and [int] convert.) *)
Theorem oversized_field_locks_table (w w' : world) (self : Database) (remote remote' : reply)
    (tabla : string) (datos : dict) (k : key) (v : value) (fs : gmap string file) :
  csv_mode self = true →
  dict_get datos k = Some v →
  short (to_field v) = false →
  small_ints datos = true →
  small_ids (stored self tabla fs) = true →
  fst (Io.insert w self remote tabla datos fs) = Returns true →
  print w' (MsgSelectError tabla) = Returns tt →
  print w' (MsgInsertError tabla) = Returns tt →
  print w' (MsgUpdateError tabla) = Returns tt →
  print w' (MsgDeleteError tabla) = Returns tt →
  let fs' := snd (Io.insert w self remote tabla datos fs) in
  (∀ filtros, Io.select w' self remote' tabla filtros fs' = (Returns [], fs'))
  ∧ (∀ datos', Io.insert w' self remote' tabla datos' fs' = (Returns false, fs'))
  ∧ (∀ i datos', Io.update w' self remote' tabla i datos' fs' = (Returns false, fs'))
  ∧ (∀ i, Io.delete w' self remote' tabla i fs' = (Returns false, fs')).
Proof.
  intros Hmode Hg Hv _ _ Hret Hs Hi Hu Hd fs'.
  pose proof (insert_oversized self tabla w remote datos k v fs Hmode Hg Hv Hret) as Hr.
  fold fs' in Hr. split; [|split; [|split]]; intros.
  - apply io_unreadable_select; assumption.
  - apply io_unreadable_insert; assumption.
  - apply io_unreadable_update; assumption.
  - apply io_unreadable_delete; assumption.
Qed.

Lemma oversized_field_locks_table_witness :
  let fs' := snd (Io.insert quiet csv_store unused "clientes" [(Some "name", VStr long_field)] ∅) in
  (∀ filtros, Io.select quiet csv_store unused "clientes" filtros fs' = (Returns [], fs'))
  ∧ (∀ datos', Io.insert quiet csv_store unused "clientes" datos' fs' = (Returns false, fs'))
  ∧ (∀ i datos', Io.update quiet csv_store unused "clientes" i datos' fs' = (Returns false, fs'))
  ∧ (∀ i, Io.delete quiet csv_store unused "clientes" i fs' = (Returns false, fs')).
Proof.
  apply (oversized_field_locks_table quiet quiet csv_store unused unused "clientes"
           [(Some "name", VStr long_field)] (Some "name") (VStr long_field) ∅).
  - reflexivity.
  - reflexivity.
  - vm_compute. reflexivity.
  - reflexivity.
  - reflexivity.
  - vm_compute. reflexivity.
  - reflexivity.
  - reflexivity.
  - reflexivity.
  - reflexivity.
Defined.
